(** * pi-control: the drive communication and conversion layer of [app.py]

    A shallow embedding of the Flask/pymodbus program [src/app.py]:
    - Python numbers ([int] as [Z], [float] as IEEE 754 binary64 over the
      Standard Library's [spec_float]) with the operations the program uses
      (true division, multiplication, [round], comparisons, [min]/[max],
      [format(x, '.2f')], [str(int)]);
    - the Modbus serial client as an environment that answers every call from
      the history of calls so far, so that theorems quantify over every
      behaviour of the link, including raised exceptions;
    - the functions of [app.py], line by line, in a state-and-exception monad
      whose state is the log of client calls and flashed messages. *)

From Stdlib Require Import ZArith QArith Qround Qabs Qpower Lqa Lia.
From Stdlib Require Import List String Ascii Bool.
From Stdlib Require Import SpecFloat DecimalString.
Import ListNotations.

Local Open Scope Z_scope.

(** ** Exceptions and results *)

(** The exception classes that matter to [app.py]: what [float], [round],
    [/] and indexing raise, what the serial client may raise, and the two
    [BaseException]s that [except Exception] does not catch. *)
Inductive exn : Type :=
| ValueError
| OverflowError
| ZeroDivisionError
| IndexError
| BadRequestKeyError
| ModbusException
| SerialException
| KeyboardInterrupt
| SystemExit.

(** [isinstance(e, Exception)]. *)
Definition is_Exception (e : exn) : bool :=
  match e with
  | KeyboardInterrupt | SystemExit => false
  | _ => true
  end.

Inductive result (A : Type) : Type :=
| Ok (a : A)
| Raise (e : exn).
Arguments Ok {A} a.
Arguments Raise {A} e.

Definition rbind {A B : Type} (r : result A) (k : A -> result B) : result B :=
  match r with
  | Ok a => k a
  | Raise e => Raise e
  end.

(** ** Binary64 floating point *)

Module B64.

Local Open Scope Q_scope.

(** The exact value of a finite float; zeros, infinities and NaN map to 0
    and are told apart by [xval] below. *)
Definition F2Q (f : spec_float) : Q :=
  match f with
  | S754_finite s m e => inject_Z (cond_Zopp s (Zpos m)) * 2 ^ e
  | _ => 0
  end.

(** Round a rational to the nearest integer, ties to the even one. *)
Definition round_half_even (x : Q) : Z :=
  let f := Qfloor x in
  match Qcompare (x - inject_Z f) (1 # 2) with
  | Lt => f
  | Gt => (f + 1)%Z
  | Eq => if Z.even f then f else (f + 1)%Z
  end.

(** [ilog2 a] is the integer [k] with [2^k <= a < 2^(k+1)], for [0 < a]. *)
Definition ilog2 (a : Q) : Z :=
  let k := (Z.log2 (Qnum a) - Z.log2 (Zpos (Qden a)))%Z in
  if Qle_bool (2 ^ k) a then k else (k - 1)%Z.

(** The exponent of the unit in the last place of the binary64 format at
    magnitude [a]: 53 significant bits, subnormals below [2^-1022]. *)
Definition ulp_exp (a : Q) : Z := Z.max (ilog2 a - 52) (-1074).

(** Mantissa [m] at exponent [e], renormalised after a carry out of the
    53rd bit, infinite from [2^1024] on. *)
Definition pack (s : bool) (m : Z) (e : Z) : spec_float :=
  match m with
  | Zpos p =>
      if (9007199254740992 <=? m)%Z then
        if (e + 1 <=? 971)%Z then S754_finite s 4503599627370496 (e + 1)
        else S754_infinity s
      else if (e <=? 971)%Z then S754_finite s p e
      else S754_infinity s
  | _ => S754_zero s
  end.

(** The magnitude [a] counted in units in the last place. *)
Definition mant (a : Q) : Z := round_half_even (a / 2 ^ ulp_exp a).

(** IEEE 754 round-to-nearest-even of an exact rational result: the float
    every binary64 operation returns on finite operands. [s0] is the sign
    given to an exact zero. *)
Definition round (s0 : bool) (q : Q) : spec_float :=
  match Qnum q with
  | Z0 => S754_zero s0
  | n => pack (n <? 0)%Z (mant (Qabs q)) (ulp_exp (Qabs q))
  end.

Definition is_zero (f : spec_float) : bool :=
  match f with S754_zero _ => true | _ => false end.

Definition is_finite (f : spec_float) : bool :=
  match f with S754_zero _ | S754_finite _ _ _ => true | _ => false end.

Definition sign (f : spec_float) : bool :=
  match f with
  | S754_zero s | S754_infinity s | S754_finite s _ _ => s
  | S754_nan => false
  end.

(** [x * y] on floats. *)
Definition mul (x y : spec_float) : spec_float :=
  match x, y with
  | S754_nan, _ | _, S754_nan => S754_nan
  | S754_infinity _, S754_zero _ | S754_zero _, S754_infinity _ => S754_nan
  | S754_infinity sx, _ => S754_infinity (xorb sx (sign y))
  | _, S754_infinity sy => S754_infinity (xorb (sign x) sy)
  | S754_zero sx, _ => S754_zero (xorb sx (sign y))
  | _, S754_zero sy => S754_zero (xorb (sign x) sy)
  | S754_finite sx _ _, S754_finite sy _ _ =>
      round (xorb sx sy) (F2Q x * F2Q y)
  end.

(** [x / y] on floats for a divisor that is not zero (Python raises on a
    zero divisor before the hardware division is reached). *)
Definition div (x y : spec_float) : spec_float :=
  match x, y with
  | S754_nan, _ | _, S754_nan => S754_nan
  | S754_infinity _, S754_infinity _ => S754_nan
  | S754_zero _, S754_zero _ => S754_nan
  | S754_infinity sx, _ => S754_infinity (xorb sx (sign y))
  | _, S754_infinity sy => S754_zero (xorb (sign x) sy)
  | S754_zero sx, _ => S754_zero (xorb sx (sign y))
  | _, S754_zero sy => S754_infinity (xorb (sign x) sy)
  | S754_finite sx _ _, S754_finite sy _ _ =>
      round (xorb sx sy) (F2Q x / F2Q y)
  end.

(** The float nearest to an integer. *)
Definition of_Z (z : Z) : spec_float := round false (inject_Z z).

End B64.

(** ** Python numbers *)

(** A JSON number loaded by [json.load] is an [int] or a [float]; so are the
    values [clamp_hz] returns. *)
Inductive pynum : Type :=
| PyInt (z : Z)
| PyFloat (f : spec_float).

(** The value a number is compared by: Python compares an [int] with a
    [float] exactly, and floats by IEEE 754 order (NaN unordered,
    [-0.0 == 0.0]). *)
Inductive xreal : Type :=
| XNaN
| XNegInf
| XFin (q : Q)
| XPosInf.

Definition xval_float (f : spec_float) : xreal :=
  match f with
  | S754_nan => XNaN
  | S754_infinity true => XNegInf
  | S754_infinity false => XPosInf
  | _ => XFin (B64.F2Q f)
  end.

Definition xval (x : pynum) : xreal :=
  match x with
  | PyInt z => XFin (inject_Z z)
  | PyFloat f => xval_float f
  end.

Definition Qlt_bool (p q : Q) : bool := negb (Qle_bool q p).

(** [a < b]. *)
Definition py_lt (a b : pynum) : bool :=
  match xval a, xval b with
  | XNaN, _ | _, XNaN => false
  | _, XNegInf | XPosInf, _ => false
  | XNegInf, _ | _, XPosInf => true
  | XFin p, XFin q => Qlt_bool p q
  end.

(** [a > b]. *)
Definition py_gt (a b : pynum) : bool := py_lt b a.

(** [a <= b]. *)
Definition py_le (a b : pynum) : bool :=
  match xval a, xval b with
  | XNaN, _ | _, XNaN => false
  | XNegInf, _ | _, XPosInf => true
  | _, XNegInf | XPosInf, _ => false
  | XFin p, XFin q => Qle_bool p q
  end.

(** [a == b]. *)
Definition py_eq (a b : pynum) : bool :=
  match xval a, xval b with
  | XNegInf, XNegInf | XPosInf, XPosInf => true
  | XFin p, XFin q => Qeq_bool p q
  | _, _ => false
  end.

(** [min(a, b)]: the first argument unless the second is smaller. *)
Definition py_min (a b : pynum) : pynum := if py_lt b a then b else a.

(** [max(a, b)]: the first argument unless the second is larger. *)
Definition py_max (a b : pynum) : pynum := if py_gt b a then b else a.

(** [float(n)] for an [int]: the nearest float, [OverflowError] when that
    is out of range. *)
Definition float_of_int (z : Z) : result spec_float :=
  match B64.of_Z z with
  | S754_infinity _ => Raise OverflowError
  | f => Ok f
  end.

(** [float(x)] for a number. *)
Definition py_float (x : pynum) : result spec_float :=
  match x with
  | PyInt z => float_of_int z
  | PyFloat f => Ok f
  end.

(** [x / d] for a float divisor: an [int] dividend is converted first, a
    zero divisor raises. *)
Definition py_truediv (x : pynum) (d : spec_float) : result spec_float :=
  rbind (py_float x) (fun f =>
    if B64.is_zero d then Raise ZeroDivisionError else Ok (B64.div f d)).

(** [round(f)] with one argument: the nearest [int], ties to even. *)
Definition py_round (f : spec_float) : result Z :=
  match f with
  | S754_nan => Raise ValueError
  | S754_infinity _ => Raise OverflowError
  | _ => Ok (B64.round_half_even (B64.F2Q f))
  end.

(** [str(n)] for an [int]. *)
Definition py_str_int (z : Z) : string := NilZero.string_of_int (Z.to_int z).

(** The digits of a non-negative count of hundredths with the decimal
    point put in: [5000] gives [50.00], [7] gives [0.07]. *)
Definition hundredths (n : Z) : string :=
  (py_str_int (n / 100) ++ "." ++ py_str_int (n mod 100 / 10)
     ++ py_str_int (n mod 10))%string.

(** [format(f, '.2f')] for a float: the exact value rounded to two
    decimals, ties to even, with the sign of the sign bit. *)
Definition format_2f_float (f : spec_float) : string :=
  match f with
  | S754_nan => "nan"
  | S754_infinity s => if s then "-inf" else "inf"
  | _ =>
      let n := B64.round_half_even (Qabs (B64.F2Q f) * inject_Z 100) in
      ((if B64.sign f then "-" else "") ++ hundredths n)%string
  end.

(** [format(x, '.2f')]: an [int] is formatted as the float it converts to. *)
Definition format_2f (x : pynum) : result string :=
  rbind (py_float x) (fun f => Ok (format_2f_float f)).

Definition f64 (z : Z) : spec_float := B64.of_Z z.

(** ** Configuration: the [CFG] dictionary loaded from [config.json] *)

Record SerialParams : Type := {
  serial_port : string;
  baudrate : Z;
  parity : string;
  stopbits : Z;
  bytesize : Z;
  timeout : pynum
}.

(** [CFG["regs"]]: logical register names to Modbus addresses. *)
Record Regs : Type := {
  freq_set : Z;
  freq_fb : Z;
  current_fb : Z;
  status : Z;
  fault : Z;
  cmd : Z
}.

Record Config : Type := {
  serial : SerialParams;
  unit_id : Z;
  regs : Regs;
  limits_hz_min : pynum;
  limits_hz_max : pynum;
  base_freq_hz : pynum;
  rated_current_a : option pynum
}.

(** ** The serial link and the log of what the program did *)

(** One entry per call on a [ModbusSerialClient] and per [flash]. A client
    lives from its [EvClient] to the next one: [app.py] builds a new client
    for every transaction. *)
Inductive event : Type :=
| EvClient (p : SerialParams)
| EvConnect
| EvRead (address count device_id : Z)
| EvWrite (address value device_id : Z)
| EvClose
| EvFlash (msg : string).

(** What [read_holding_registers] and [write_register] return when they
    return an object: [app.py] looks at [isError()] and [registers]. *)
Record response : Type := {
  isError : bool;
  registers : list Z
}.

(** The link, the device behind it and the client library: each call is
    answered from the log up to and including the call itself, by a value or
    by an exception. Nothing is assumed about the answers. *)
Record Env : Type := {
  on_connect : list event -> result bool;
  on_read : list event -> result (option response);
  on_write : list event -> result (option response);
  on_close : list event -> result unit
}.

(** ** The monad of [app.py]: a log, and exceptions *)

Definition M (A : Type) : Type := list event -> result A * list event.

Definition ret {A : Type} (a : A) : M A := fun h => (Ok a, h).

Definition bind {A B : Type} (m : M A) (k : A -> M B) : M B :=
  fun h =>
    match m h with
    | (Ok a, h') => k a h'
    | (Raise e, h') => (Raise e, h')
    end.

Notation "x <- m ;; k" := (bind m (fun x => k))
  (at level 61, m at next level, right associativity).
Notation "m ;;; k" := (bind m (fun _ => k))
  (at level 61, right associativity).

(** A pure computation that may raise. *)
Definition lift {A : Type} (r : result A) : M A := fun h => (r, h).

(** A call on the client: logged, then answered by the environment. *)
Definition call {A : Type} (ev : event) (answer : list event -> result A) : M A :=
  fun h => let h' := (h ++ [ev])%list in (answer h', h').

(** [try: body / except Exception: handler]. *)
Definition try_except_Exception {A : Type} (body handler : M A) : M A :=
  fun h =>
    match body h with
    | (Raise e, h') => if is_Exception e then handler h' else (Raise e, h')
    | r => r
    end.

(** [try: body / except: handler], which catches every exception. *)
Definition try_except_all {A : Type} (body handler : M A) : M A :=
  fun h =>
    match body h with
    | (Raise _, h') => handler h'
    | r => r
    end.

(** [try: body / finally: cleanup]: the cleanup runs on every way out of
    the body, and an exception of its own would replace the body's outcome. *)
Definition finally {A : Type} (body : M A) (cleanup : M unit) : M A :=
  fun h =>
    match body h with
    | (r, h') =>
        match cleanup h' with
        | (Ok _, h'') => (r, h'')
        | (Raise e, h'') => (Raise e, h'')
        end
    end.

(** [xs[0]]. *)
Definition index0 (xs : list Z) : result Z :=
  match xs with
  | x :: _ => Ok x
  | [] => Raise IndexError
  end.

(** ** What a view function returns *)

(** The [data] dictionary of [api_status]. *)
Record StatusData : Type := {
  sd_status : string;
  sd_fault : option Z;
  sd_freq_cmd : option spec_float;
  sd_freq_act : option spec_float;
  sd_amps : option spec_float
}.

(** The keyword arguments [index] passes to [render_template]. *)
Record IndexPage : Type := {
  ip_freq_cmd : option spec_float;
  ip_freq_act : option spec_float;
  ip_amps : option spec_float;
  ip_ratedA : spec_float;
  ip_status : string;
  ip_fault : option Z;
  ip_minHz : pynum;
  ip_maxHz : pynum;
  ip_sliderHz : pynum
}.

Inductive http_response : Type :=
| Json (data : StatusData)
| Page (ctx : IndexPage)
| Redirect (endpoint : string)
| InternalServerError.

(** [request.form]: the submitted fields in order. *)
Definition form := list (string * string).

(** [request.form[key]]: the first value of the key, a [BadRequestKeyError]
    when there is none. *)
Fixpoint form_get (f : form) (key : string) : result string :=
  match f with
  | [] => Raise BadRequestKeyError
  | (k, v) :: rest => if String.eqb k key then Ok v else form_get rest key
  end.

(** ** The functions of [app.py] *)

Section App.

(** [float(s)] on a string is the interpreter's: [None] stands for its
    [ValueError]. *)
Variable float_of_str : string -> option spec_float.
Variable CFG : Config.
Variable env : Env.

Definition py_float_of_str (s : string) : result spec_float :=
  match float_of_str s with
  | Some f => Ok f
  | None => Raise ValueError
  end.

(** [mclient()]. *)
Definition mclient : M unit :=
  fun h => (Ok tt, (h ++ [EvClient (serial CFG)])%list).

Definition connect : M bool := call EvConnect (on_connect env).

Definition read_holding_registers (address count device_id : Z)
  : M (option response) :=
  call (EvRead address count device_id) (on_read env).

Definition write_register (address value device_id : Z)
  : M (option response) :=
  call (EvWrite address value device_id) (on_write env).

Definition close : M unit := call EvClose (on_close env).

(** [clamp_hz(hz)]; [float(hz)] is [hz] itself for the float it is given. *)
Definition clamp_hz (hz : spec_float) : pynum :=
  let lo := limits_hz_min CFG in
  let hi := limits_hz_max CFG in
  py_max lo (py_min hi (PyFloat hz)).

(** [pct10k_from_hz(hz)]. *)
Definition pct10k_from_hz (hz : pynum) : result Z :=
  rbind (py_float (base_freq_hz CFG)) (fun base =>
  rbind (py_truediv hz base) (fun q =>
  py_round (B64.mul q (f64 10000)))).

(** [read_regs(addr, count)]. *)
Definition read_regs (addr count : Z) : M (option (list Z)) :=
  mclient ;;;
  finally
    (try_except_Exception
       (ok <- connect ;;
        if negb ok then ret None
        else
          rr <- read_holding_registers addr count (unit_id CFG) ;;
          match rr with
          | None => ret None
          | Some r => if isError r then ret None else ret (Some (registers r))
          end)
       (ret None))
    (try_except_all close (ret tt)).

(** [write_reg(addr, value)]. *)
Definition write_reg (addr value : Z) : M bool :=
  mclient ;;;
  finally
    (try_except_Exception
       (ok <- connect ;;
        if negb ok then ret false
        else
          rq <- write_register addr value (unit_id CFG) ;;
          match rq with
          | None => ret false
          | Some r => ret (negb (isError r))
          end)
       (ret false))
    (try_except_all close (ret tt)).

(** The decoding of the frequency set-point register, line 68:
    [(pct10k / 10000.0) * float(CFG["base_freq_hz"])]. *)
Definition decode_freq_cmd (pct10k : Z) : result spec_float :=
  rbind (py_truediv (PyInt pct10k) (f64 10000)) (fun q =>
  rbind (py_float (base_freq_hz CFG)) (fun base =>
  Ok (B64.mul q base))).

(** [read_freq_cmd()]. *)
Definition read_freq_cmd : M (option spec_float) :=
  regs <- read_regs (freq_set (regs CFG)) 1 ;;
  match regs with
  | None => ret None
  | Some rs =>
      pct10k <- lift (index0 rs) ;;
      hz <- lift (decode_freq_cmd pct10k) ;;
      ret (Some hz)
  end.

(** [read_freq_hz()]. *)
Definition read_freq_hz : M (option spec_float) :=
  regs <- read_regs (freq_fb (regs CFG)) 1 ;;
  match regs with
  | None => ret None
  | Some rs =>
      raw <- lift (index0 rs) ;;
      hz <- lift (py_truediv (PyInt raw) (f64 100)) ;;
      ret (Some hz)
  end.

(** The decoding of the current register, line 83:
    [raw / 100.0 if raw > 200 else float(raw)]. *)
Definition decode_current (raw : Z) : result spec_float :=
  if (raw >? 200)%Z then py_truediv (PyInt raw) (f64 100)
  else float_of_int raw.

(** [read_current_a()]. *)
Definition read_current_a : M (option spec_float) :=
  regs <- read_regs (current_fb (regs CFG)) 1 ;;
  match regs with
  | None => ret None
  | Some rs =>
      raw <- lift (index0 rs) ;;
      amps <- lift (decode_current raw) ;;
      ret (Some amps)
  end.

(** The decoding of the status register, line 88:
    [{1: "RUN FWD", 2: "RUN REV", 3: "STOP"}.get(raw, f"STATE {raw}")]. *)
Definition decode_status (raw : Z) : string :=
  match raw with
  | 1 => "RUN FWD"
  | 2 => "RUN REV"
  | 3 => "STOP"
  | _ => "STATE " ++ py_str_int raw
  end%string.

(** [read_status_text()]. *)
Definition read_status_text : M string :=
  regs <- read_regs (status (regs CFG)) 1 ;;
  match regs with
  | None => ret "No comm"%string
  | Some rs =>
      raw <- lift (index0 rs) ;;
      ret (decode_status raw)
  end.

(** [read_fault()]. *)
Definition read_fault : M (option Z) :=
  regs <- read_regs (fault (regs CFG)) 1 ;;
  match regs with
  | None => ret None
  | Some rs =>
      raw <- lift (index0 rs) ;;
      ret (Some raw)
  end.

Definition flash (msg : string) : M unit :=
  fun h => (Ok tt, (h ++ [EvFlash msg])%list).

(** [api_status()]. *)
Definition api_status : M http_response :=
  st <- read_status_text ;;
  fl <- read_fault ;;
  fc <- read_freq_cmd ;;
  fa <- read_freq_hz ;;
  am <- read_current_a ;;
  ret (Json {| sd_status := st; sd_fault := fl; sd_freq_cmd := fc;
               sd_freq_act := fa; sd_amps := am |}).

(** [index()]. *)
Definition index : M http_response :=
  freq_cmd <- read_freq_cmd ;;
  freq_act <- read_freq_hz ;;
  amps <- read_current_a ;;
  ratedA <- lift (py_float (match rated_current_a CFG with
                            | Some x => x
                            | None => PyFloat (f64 10)
                            end)) ;;
  let sliderHz := match freq_cmd with
                  | Some f => PyFloat f
                  | None => limits_hz_max CFG
                  end in
  st <- read_status_text ;;
  fl <- read_fault ;;
  ret (Page {| ip_freq_cmd := freq_cmd; ip_freq_act := freq_act;
               ip_amps := amps; ip_ratedA := ratedA; ip_status := st;
               ip_fault := fl; ip_minHz := limits_hz_min CFG;
               ip_maxHz := limits_hz_max CFG; ip_sliderHz := sliderHz |}).

Definition ok_or_failed (ok : bool) : string :=
  if ok then "OK"%string else "FAILED"%string.

(** [start()]. *)
Definition start : M http_response :=
  ok <- write_reg (cmd (regs CFG)) 1 ;;
  flash ("START " ++ ok_or_failed ok) ;;;
  ret (Redirect "index").

(** [stop()]. *)
Definition stop : M http_response :=
  ok <- write_reg (cmd (regs CFG)) 6 ;;
  flash ("STOP " ++ ok_or_failed ok) ;;;
  ret (Redirect "index").

(** [reset()]. *)
Definition reset : M http_response :=
  ok <- write_reg (cmd (regs CFG)) 7 ;;
  flash ("RESET " ++ ok_or_failed ok) ;;;
  ret (Redirect "index").

(** Lines 157 to 161 of [setfreq()], once [hz] has been parsed. *)
Definition set_frequency (hz : spec_float) : M http_response :=
  let hz := clamp_hz hz in
  value <- lift (pct10k_from_hz hz) ;;
  ok <- write_reg (freq_set (regs CFG)) value ;;
  msg <- (if ok then
            s <- lift (format_2f hz) ;;
            ret ("Set " ++ s ++ " Hz (cmd=" ++ py_str_int value ++ ")")%string
          else ret "Write failed"%string) ;;
  flash msg ;;;
  ret (Redirect "index").

(** [setfreq()]. *)
Definition setfreq (f : form) : M http_response :=
  parsed <- try_except_Exception
              (hz <- lift (rbind (form_get f "freq") py_float_of_str) ;;
               ret (Some hz))
              (flash "Invalid frequency" ;;; ret None) ;;
  match parsed with
  | None => ret (Redirect "index")
  | Some hz => set_frequency hz
  end.

(** The routes of the application. *)
Inductive request : Type :=
| GetApiStatus
| GetIndex
| PostStart
| PostStop
| PostReset
| PostSetfreq (f : form).

Definition dispatch (r : request) : M http_response :=
  match r with
  | GetApiStatus => api_status
  | GetIndex => index
  | PostStart => start
  | PostStop => stop
  | PostReset => reset
  | PostSetfreq f => setfreq f
  end.

(** Flask around a view function: an [Exception] becomes a 500 response and
    the server goes on, anything else ends the process. *)
Definition handle (r : request) : M http_response :=
  try_except_Exception (dispatch r) (ret InternalServerError).

(** [app.run(threaded=False)]: the requests are served one after another. *)
Fixpoint serve (rs : list request) : M (list http_response) :=
  match rs with
  | [] => ret []
  | r :: rest =>
      resp <- handle r ;;
      resps <- serve rest ;;
      ret (resp :: resps)
  end.

End App.

(** ** Vocabulary of the statements below *)

(** What the [try] block of [read_regs] decides from the answers to
    [connect] and to the read, before the [finally] clause runs. *)
Definition read_outcome (c : result bool) (r : result (option response))
  : result (option (list Z)) :=
  match c with
  | Ok true =>
      match r with
      | Ok (Some rr) => if isError rr then Ok None else Ok (Some (registers rr))
      | Ok None => Ok None
      | Raise e => if is_Exception e then Ok None else Raise e
      end
  | Ok false => Ok None
  | Raise e => if is_Exception e then Ok None else Raise e
  end.

(** The same for [write_reg]. *)
Definition write_outcome (c : result bool) (r : result (option response))
  : result bool :=
  match c with
  | Ok true =>
      match r with
      | Ok (Some rq) => Ok (negb (isError rq))
      | Ok None => Ok false
      | Raise e => if is_Exception e then Ok false else Raise e
      end
  | Ok false => Ok false
  | Raise e => if is_Exception e then Ok false else Raise e
  end.

(** The calls one transaction makes between building the client and
    closing it: [connect], and the request [rq] when the link opened. *)
Definition transaction_calls (c : result bool) (rq : event) : list event :=
  match c with
  | Ok true => [EvConnect; rq]
  | _ => [EvConnect]
  end.

(** The log at the moment [connect] is answered, and at the moment the
    request is, in a transaction that starts from the log [h]. *)
Definition at_connect (cfg : Config) (h : list event) : list event :=
  h ++ [EvClient (serial cfg); EvConnect].

Definition at_request (cfg : Config) (h : list event) (rq : event)
  : list event :=
  h ++ [EvClient (serial cfg); EvConnect; rq].

(** The link cannot be opened: [connect] returns [False] or raises. *)
Definition cannot_open (env : Env) : Prop :=
  forall h, on_connect env h = Ok false \/
            exists e, on_connect env h = Raise e /\ is_Exception e = true.

(** The same link with another behaviour of [close]. *)
Definition with_close (env : Env) (c : list event -> result unit) : Env := {|
  on_connect := on_connect env;
  on_read := on_read env;
  on_write := on_write env;
  on_close := c
|}.

(** [m] only appends to the log, and every event it appends satisfies [P]. *)
Definition appends {A : Type} (P : event -> Prop) (m : M A) : Prop :=
  forall h, exists ext, snd (m h) = h ++ ext /\ Forall P ext.

(** The three commands of the drive, each with the view function that
    issues it and the literal that view passes to [write_reg]. *)
Inductive command : Type := Start | Stop | Reset.

Definition command_view (c : command) : Config -> Env -> M http_response :=
  match c with
  | Start => start
  | Stop => stop
  | Reset => reset
  end.

Definition command_code (c : command) : Z :=
  match c with
  | Start => 1
  | Stop => 6
  | Reset => 7
  end.

Definition command_name (c : command) : string :=
  match c with
  | Start => "START"
  | Stop => "STOP"
  | Reset => "RESET"
  end.

(** A logged event is in order when it is not a write to the command
    register, or writes the code of a command. *)
Definition command_write_ok (cfg : Config) (ev : event) : bool :=
  match ev with
  | EvWrite a v _ =>
      if a =? cmd (regs cfg)
      then existsb (Z.eqb v) (map command_code [Start; Stop; Reset])
      else true
  | _ => true
  end.

(** The value of a number as a rational, and whether it has one. *)
Definition num_Q (x : pynum) : Q :=
  match x with
  | PyInt z => inject_Z z
  | PyFloat f => B64.F2Q f
  end.

Definition num_finite (x : pynum) : bool :=
  match x with
  | PyInt _ => true
  | PyFloat f => B64.is_finite f
  end.



Definition sgn (s : bool) : Q := if s then (-1)%Q else 1%Q.

(** *** Vocabulary of the further properties *)

(** [m] keeps the property [I] of the log. *)
Definition keeps {A : Type} (I : list event -> Prop) (m : M A) : Prop :=
  forall h, I h -> I (snd (m h)).

(** An event that changes nothing on the drive and shows nothing to the
    user: anything but a write and a flash. *)
Definition is_query (ev : event) : bool :=
  match ev with
  | EvWrite _ _ _ | EvFlash _ => false
  | _ => true
  end.

(** The requests that are routed to [api_status] and [index]. *)
Definition is_get (r : request) : bool :=
  match r with
  | GetApiStatus | GetIndex => true
  | _ => false
  end.

(** Where a client is in its life: none alive, built, connected, asked. *)
Inductive link_state : Type := Idle | Built | Opened | Asked.

(** The one order in which a client may be used; [None] is a log out of
    that order (a second client built before the first is closed, a
    request before [connect], a flash in the middle of a transaction). *)
Definition link_step (s : option link_state) (ev : event) : option link_state :=
  match s, ev with
  | Some Idle, EvClient _ => Some Built
  | Some Idle, EvFlash _ => Some Idle
  | Some Built, EvConnect => Some Opened
  | Some Opened, EvRead _ _ _ => Some Asked
  | Some Opened, EvWrite _ _ _ => Some Asked
  | Some Opened, EvClose => Some Idle
  | Some Asked, EvClose => Some Idle
  | _, _ => None
  end.

Definition link_run (log : list event) : option link_state :=
  fold_left link_step log (Some Idle).

(** The registers [app.py] reads, and what it may write where. *)
Definition read_addresses (cfg : Config) : list Z :=
  [status (regs cfg); fault (regs cfg); freq_set (regs cfg);
   freq_fb (regs cfg); current_fb (regs cfg)].

Definition as_configured (cfg : Config) (ev : event) : Prop :=
  match ev with
  | EvClient p => p = serial cfg
  | EvRead a c u => In a (read_addresses cfg) /\ c = 1 /\ u = unit_id cfg
  | EvWrite a v u =>
      u = unit_id cfg /\
      (a = freq_set (regs cfg) \/ (a = cmd (regs cfg) /\ In v [1; 6; 7]))
  | _ => True
  end.

(** A number that [float] converts without rounding: a finite float, or an
    [int] below [2^53] in magnitude. *)
Definition exact_num (x : pynum) : bool :=
  match x with
  | PyInt z => Z.abs z <? 9007199254740992
  | PyFloat f => B64.is_finite f
  end.

(** A link that fails as a link does: [connect] and the read raise nothing
    but [Exception]s, and a response to a read that is not an error
    carries at least one register, the first of them a 16-bit value. *)
Definition sound_link (env : Env) : Prop :=
  (forall h e, on_connect env h = Raise e -> is_Exception e = true) /\
  (forall h e, on_read env h = Raise e -> is_Exception e = true) /\
  (forall h r, on_read env h = Ok (Some r) -> isError r = false ->
     exists raw rest, registers r = raw :: rest /\ 0 <= raw <= 65535).

(** The log after one read transaction on the register [a], started from
    the log [k]. *)
Definition after_read (cfg : Config) (env : Env) (a : Z) (k : list event)
  : list event :=
  k ++ EvClient (serial cfg)
    :: transaction_calls (on_connect env (at_connect cfg k))
         (EvRead a 1 (unit_id cfg))
    ++ [EvClose].

(** ** Concrete configurations and links *)

(** [float] restricted to strings of decimal digits, on which it is the
    float nearest to the number written ([inf] when that is out of range);
    it stands for the interpreter's [float] where an example is run. *)
Definition float_of_digits (s : string) : option spec_float :=
  match s with
  | EmptyString => None
  | _ =>
      match NilZero.uint_of_string s with
      | Some u => Some (f64 (Z.of_N (N.of_uint u)))
      | None => None
      end
  end.

(** A link on which everything succeeds; every read returns [rs]. *)
Definition env_ok (rs : list Z) : Env := {|
  on_connect := fun _ => Ok true;
  on_read := fun _ => Ok (Some {| isError := false; registers := rs |});
  on_write := fun _ => Ok (Some {| isError := false; registers := [] |});
  on_close := fun _ => Ok tt
|}.

(** A link that cannot be opened. *)
Definition env_down : Env := {|
  on_connect := fun _ => Ok false;
  on_read := fun _ => Raise ModbusException;
  on_write := fun _ => Raise ModbusException;
  on_close := fun _ => Ok tt
|}.

(** A link that is down for the first transaction and up afterwards. *)
Definition env_late : Env := {|
  on_connect := fun h => Ok (3 <? Z.of_nat (List.length h));
  on_read := fun _ => Ok (Some {| isError := false; registers := [0] |});
  on_write := fun _ => Ok (Some {| isError := false; registers := [] |});
  on_close := fun _ => Ok tt
|}.

Definition example_serial : SerialParams := {|
  serial_port := "/dev/ttyUSB0"; baudrate := 9600; parity := "N";
  stopbits := 1; bytesize := 8; timeout := PyInt 1
|}.

Definition example_regs : Regs := {|
  freq_set := 4096; freq_fb := 4097; current_fb := 4098;
  status := 12288; fault := 32768; cmd := 8192
|}.

(** Limits 25 and 50 Hz, base frequency 50 Hz. *)
Definition example_cfg : Config := {|
  serial := example_serial; unit_id := 1; regs := example_regs;
  limits_hz_min := PyInt 25; limits_hz_max := PyInt 50;
  base_freq_hz := PyInt 50; rated_current_a := None
|}.

(** The same with the set-point and the command mapped to one address. *)
Definition aliased_cfg : Config := {|
  serial := example_serial; unit_id := 1;
  regs := {| freq_set := 8192; freq_fb := 4097; current_fb := 4098;
             status := 12288; fault := 32768; cmd := 8192 |};
  limits_hz_min := PyInt 25; limits_hz_max := PyInt 50;
  base_freq_hz := PyInt 50; rated_current_a := None
|}.



(** Equality of floats as data, to compare [B64] with the Standard
    Library's reference operations. *)
Definition sf_eqb (a b : spec_float) : bool :=
  match a, b with
  | S754_zero s, S754_zero s' => Bool.eqb s s'
  | S754_infinity s, S754_infinity s' => Bool.eqb s s'
  | S754_nan, S754_nan => true
  | S754_finite s m e, S754_finite s' m' e' =>
      Bool.eqb s s' && Pos.eqb m m' && Z.eqb e e'
  | _, _ => false
  end.

Definition sample_ints : list Z :=
  [0; 1; -1; 3; 7; 50; 60; 100; 201; 10000; 65535; 32768; 2 ^ 53;
   2 ^ 53 + 1; 2 ^ 53 + 3; 2 ^ 54 - 1; 2 ^ 1024 - 2 ^ 970 - 1;
   2 ^ 1024 - 2 ^ 970; - 2 ^ 1023; 10 ^ 308; 10 ^ 22; 10 ^ 23;
   123456789012345678901234567890].

Definition sample_floats : list spec_float :=
  map B64.of_Z sample_ints ++
  [S754_finite false 1 (-1074); S754_finite true 3 (-1074);
   S754_finite false 4503599627370496 (-1074);
   S754_finite false 9007199254740991 (-1074);
   S754_finite false 9007199254740991 971;
   S754_zero true; S754_infinity false; S754_infinity true; S754_nan].

(** ** The float model against the Standard Library's [SpecFloat] *)

(** On the samples, which cover zeros, subnormals, the overflow threshold,
    infinities and NaN, [B64] returns what the reference operations of
    [SpecFloat] at precision 53 and maximal exponent 1024 return, and the
    order by exact value is the IEEE 754 comparison. *)
Example b64_agrees_with_SpecFloat :
  forallb (valid_binary 53 1024) sample_floats = true /\
  forallb (fun z => sf_eqb (B64.of_Z z) (binary_normalize 53 1024 z 0 false))
    sample_ints = true /\
  forallb (fun x => forallb (fun y =>
     sf_eqb (B64.mul x y) (SFmul 53 1024 x y)
     && sf_eqb (B64.div x y) (SFdiv 53 1024 x y)
     && Bool.eqb (py_lt (PyFloat x) (PyFloat y)) (SFltb x y)
     && Bool.eqb (py_le (PyFloat x) (PyFloat y)) (SFleb x y)
     && Bool.eqb (py_eq (PyFloat x) (PyFloat y)) (SFeqb x y))
    sample_floats) sample_floats = true.
Proof. vm_compute. repeat split. Qed.

(** ** Facts about binary64 rounding *)

Module B64Facts.
Import B64.
Local Open Scope Q_scope.

Lemma pow2_pos (e : Z) : 0 < 2 ^ e.
Proof. apply Qpower_0_lt. reflexivity. Qed.

Lemma pow2_add (a b : Z) : 2 ^ (a + b) == 2 ^ a * 2 ^ b.
Proof. apply Qpower_plus. discriminate. Qed.

Lemma pow2_le (a b : Z) : (a <= b)%Z -> 2 ^ a <= 2 ^ b.
Proof. intros H. apply Qpower_le_compat_l; [exact H | discriminate]. Qed.

Lemma pow2_lt (a b : Z) : (a < b)%Z -> 2 ^ a < 2 ^ b.
Proof. intros H. apply Qpower_lt_compat_l; [exact H | reflexivity]. Qed.

Lemma pow2_succ (a : Z) : 2 ^ (a + 1) == 2 * 2 ^ a.
Proof. rewrite pow2_add. change (2 ^ 1) with 2. ring. Qed.

Lemma pow2_Z (n : Z) : (0 <= n)%Z -> inject_Z (2 ^ n) == 2 ^ n.
Proof. intros H. apply (Zpower_Qpower 2 n H). Qed.

(** *** Rounding to the nearest integer *)


Lemma round_half_even_Z (z : Z) : round_half_even (inject_Z z) = z.
Proof.
  unfold round_half_even. rewrite Qfloor_Z.
  destruct (Qcompare_spec (inject_Z z - inject_Z z) (1 # 2)) as [E | L | G];
    [lra | reflexivity | lra].
Qed.

#[global] Instance round_half_even_comp : Proper (Qeq ==> eq) round_half_even.
Proof.
  intros x y E. unfold round_half_even.
  rewrite (Qfloor_comp _ _ E).
  assert (E' : x - inject_Z (Qfloor y) == y - inject_Z (Qfloor y)) by (rewrite E; reflexivity).
  rewrite (Qcompare_comp _ _ E' _ _ (Qeq_refl _)). reflexivity.
Qed.

Lemma round_half_even_mono (x y : Q) :
  x <= y -> (round_half_even x <= round_half_even y)%Z.
Proof.
  intros H.
  pose proof (Qfloor_resp_le _ _ H) as Hf.
  destruct (Z.eq_dec (Qfloor x) (Qfloor y)) as [E | N].
  - unfold round_half_even. rewrite E.
    destruct (Qcompare_spec (x - inject_Z (Qfloor y)) (1 # 2)) as [E1 | L1 | G1];
    destruct (Qcompare_spec (y - inject_Z (Qfloor y)) (1 # 2)) as [E2 | L2 | G2];
      try lia; try lra; destruct (Z.even (Qfloor y)); lia.
  - assert (Hlt : (Qfloor x + 1 <= Qfloor y)%Z) by lia.
    apply Z.le_trans with (Qfloor x + 1)%Z.
    + unfold round_half_even.
      destruct (Qcompare (x - inject_Z (Qfloor x)) (1 # 2)); try lia.
      destruct (Z.even (Qfloor x)); lia.
    + apply Z.le_trans with (Qfloor y); [exact Hlt |].
      unfold round_half_even.
      destruct (Qcompare (y - inject_Z (Qfloor y)) (1 # 2)); try lia.
      destruct (Z.even (Qfloor y)); lia.
Qed.

(** *** The binary logarithm *)

Lemma Zlog2_Q (n : Z) :
  (0 < n)%Z -> 2 ^ (Z.log2 n) <= inject_Z n /\ inject_Z n < 2 * 2 ^ (Z.log2 n).
Proof.
  intros Hn. destruct (Z.log2_spec n Hn) as [Hlo Hhi].
  pose proof (Z.log2_nonneg n) as Hl.
  split.
  - rewrite <- pow2_Z by exact Hl. rewrite <- Zle_Qle. exact Hlo.
  - rewrite <- pow2_succ. rewrite <- pow2_Z by lia.
    rewrite <- Zlt_Qlt. replace (Z.log2 n + 1)%Z with (Z.succ (Z.log2 n)) by lia.
    exact Hhi.
Qed.

Lemma ilog2_spec (a : Q) :
  0 < a -> 2 ^ (ilog2 a) <= a /\ a < 2 ^ (ilog2 a + 1).
Proof.
  intros Ha. destruct a as [n d].
  assert (Hn : (0 < n)%Z).
  { unfold Qlt in Ha. simpl in Ha. lia. }
  unfold ilog2. cbn [Qnum Qden].
  set (ln := Z.log2 n). set (ld := Z.log2 (Zpos d)).
  destruct (Zlog2_Q n Hn) as [Hn1 Hn2]. fold ln in Hn1, Hn2.
  destruct (Zlog2_Q (Zpos d) eq_refl) as [Hd1 Hd2]. fold ld in Hd1, Hd2.
  assert (Hk : 2 ^ ln == 2 ^ (ln - ld) * 2 ^ ld).
  { rewrite <- pow2_add. replace (ln - ld + ld)%Z with ln by lia. reflexivity. }
  assert (Ea : (n # d) * inject_Z (Zpos d) == inject_Z n).
  { rewrite (Qmake_Qdiv n d). field. discriminate. }
  pose proof (pow2_pos (ln - ld)) as Hp.
  pose proof (pow2_pos ld) as Hpd.
  destruct (Qle_bool (2 ^ (ln - ld)) (n # d)) eqn:Hb.
  - apply Qle_bool_iff in Hb. split; [exact Hb |].
    rewrite pow2_succ. nra.
  - assert (Hlt : (n # d) < 2 ^ (ln - ld)).
    { apply Qnot_le_lt. intros Hc. apply Qle_bool_iff in Hc. congruence. }
    replace (ln - ld - 1 + 1)%Z with (ln - ld)%Z by lia.
    split; [| exact Hlt].
    assert (Hh : 2 ^ (ln - ld) == 2 * 2 ^ (ln - ld - 1)).
    { rewrite <- pow2_succ. replace (ln - ld - 1 + 1)%Z with (ln - ld)%Z by lia. reflexivity. }
    pose proof (pow2_pos (ln - ld - 1)) as Hp1.
    nra.
Qed.

Lemma ilog2_unique (a : Q) (k : Z) :
  2 ^ k <= a -> a < 2 ^ (k + 1) -> ilog2 a = k.
Proof.
  intros Hlo Hhi.
  assert (Ha : 0 < a) by (pose proof (pow2_pos k); lra).
  destruct (ilog2_spec a Ha) as [Slo Shi].
  destruct (Z.lt_trichotomy (ilog2 a) k) as [L | [E | G]]; [| exact E |].
  - assert (H : 2 ^ (ilog2 a + 1) <= 2 ^ k) by (apply pow2_le; lia). lra.
  - assert (H : 2 ^ (k + 1) <= 2 ^ (ilog2 a)) by (apply pow2_le; lia). lra.
Qed.

Lemma ilog2_mono (a b : Q) : 0 < a -> a <= b -> (ilog2 a <= ilog2 b)%Z.
Proof.
  intros Ha Hab.
  destruct (ilog2_spec a Ha) as [Alo Ahi].
  destruct (ilog2_spec b) as [Blo Bhi]; [lra |].
  destruct (Z.le_gt_cases (ilog2 a) (ilog2 b)) as [L | G]; [exact L |].
  assert (H : 2 ^ (ilog2 b + 1) <= 2 ^ (ilog2 a)) by (apply pow2_le; lia). lra.
Qed.

(** *** The mantissa and exponent picked for a positive magnitude *)

Lemma ulp_exp_ge (a : Q) : (-1074 <= ulp_exp a)%Z.
Proof. unfold ulp_exp. lia. Qed.

Lemma mant_bounds (a : Q) :
  0 < a ->
  (0 <= mant a <= 9007199254740992)%Z /\
  ((-1074 < ulp_exp a)%Z -> (4503599627370496 <= mant a)%Z).
Proof.
  intros Ha. destruct (ilog2_spec a Ha) as [Lo Hi].
  pose proof (pow2_pos (ulp_exp a)) as Hp.
  unfold mant. split; [split |].
  - rewrite <- (round_half_even_Z 0). apply round_half_even_mono.
    apply Qle_shift_div_l; [exact Hp | change (inject_Z 0) with 0; lra].
  - rewrite <- (round_half_even_Z 9007199254740992). apply round_half_even_mono.
    apply Qle_shift_div_r; [exact Hp |].
    assert (H : 2 ^ (ilog2 a + 1) <= 2 ^ (53 + ulp_exp a)).
    { apply pow2_le. unfold ulp_exp. lia. }
    rewrite (pow2_add 53) in H. change (2 ^ 53) with (inject_Z 9007199254740992) in H.
    lra.
  - intros He.
    rewrite <- (round_half_even_Z 4503599627370496). apply round_half_even_mono.
    apply Qle_shift_div_l; [exact Hp |].
    assert (H : 2 ^ (52 + ulp_exp a) <= 2 ^ (ilog2 a)).
    { apply pow2_le. unfold ulp_exp in *. lia. }
    rewrite (pow2_add 52) in H. change (2 ^ 52) with (inject_Z 4503599627370496) in H.
    lra.
Qed.



(** *** What [pack] and [round] return *)

Lemma inject_cond_Zopp (s : bool) (m : Z) :
  inject_Z (cond_Zopp s m) == sgn s * inject_Z m.
Proof. destruct s; simpl; [rewrite inject_Z_opp |]; ring. Qed.

Lemma pack_spec (s : bool) (m e : Z) :
  (0 <= m <= 9007199254740992)%Z ->
  ((-1074 < e)%Z -> (4503599627370496 <= m)%Z) ->
  (-1074 <= e)%Z ->
  (pack s m e = S754_infinity s /\ 2 ^ 1024 <= inject_Z m * 2 ^ e) \/
  (is_finite (pack s m e) = true /\ sign (pack s m e) = s /\
   F2Q (pack s m e) == sgn s * (inject_Z m * 2 ^ e) /\
   inject_Z m * 2 ^ e < 2 ^ 1024).
Proof.
  intros Hm Hn He.
  pose proof (pow2_pos e) as Hp.
  assert (T : 2 ^ 1024 == inject_Z 9007199254740992 * 2 ^ 971) by reflexivity.
  assert (T' : 2 ^ 1024 == inject_Z 4503599627370496 * 2 ^ 972) by reflexivity.
  destruct m as [| p | p]; [| | lia].
  - right. cbn [pack is_finite sign F2Q]. change (inject_Z 0) with 0.
    pose proof (pow2_pos 1024).
    split; [reflexivity | split; [reflexivity | split; [ring | lra]]].
  - unfold pack.
    destruct (Z.leb_spec 9007199254740992 (Zpos p)) as [Hc | Hc].
    + assert (Ep : Zpos p = 9007199254740992%Z) by lia.
      destruct (Z.leb_spec (e + 1) 971) as [Hs | Hs].
      * right. cbn [is_finite sign F2Q]. repeat split.
        -- rewrite inject_cond_Zopp, Ep, pow2_succ.
           change (inject_Z 9007199254740992) with (2 * inject_Z 4503599627370496).
           ring.
        -- rewrite Ep, T. pose proof (pow2_lt e 971 ltac:(lia)).
           assert (0 < inject_Z 9007199254740992) by reflexivity. nra.
      * left. split; [reflexivity |].
        rewrite Ep, T. pose proof (pow2_le 971 e ltac:(lia)).
        assert (0 < inject_Z 9007199254740992) by reflexivity. nra.
    + destruct (Z.leb_spec e 971) as [Hs | Hs].
      * right. cbn [is_finite sign F2Q]. repeat split.
        -- rewrite inject_cond_Zopp. ring.
        -- rewrite T. pose proof (pow2_le e 971 Hs).
           assert (Hq : inject_Z (Zpos p) < inject_Z 9007199254740992)
             by (rewrite <- Zlt_Qlt; exact Hc).
           assert (0 < inject_Z (Zpos p)) by reflexivity.
           pose proof (pow2_pos 971). nra.
      * left. split; [reflexivity |].
        rewrite T'. pose proof (pow2_le 972 e ltac:(lia)).
        assert (Hq : inject_Z 4503599627370496 <= inject_Z (Zpos p))
          by (rewrite <- Zle_Qle; apply Hn; lia).
        assert (0 < inject_Z 4503599627370496) by reflexivity.
        pose proof (pow2_pos 972). nra.
Qed.

Lemma round_zero (s0 : bool) (q : Q) : q == 0 -> round s0 q = S754_zero s0.
Proof.
  intros E. unfold round. destruct q as [[| p | p] d]; [reflexivity | |];
    unfold Qeq in E; simpl in E; lia.
Qed.

Lemma round_nonzero (s0 : bool) (q : Q) :
  ~ q == 0 ->
  let a := Qabs q in
  let s := (Qnum q <? 0)%Z in
  0 < a /\ q == sgn s * a /\
  round s0 q = pack s (mant a) (ulp_exp a).
Proof.
  intros N. destruct q as [[| p | p] d].
  - exfalso. apply N. reflexivity.
  - cbn. split; [reflexivity | split; [| reflexivity]].
    unfold Qeq; simpl; lia.
  - cbn. split; [reflexivity | split; [| reflexivity]].
    unfold Qeq; simpl; lia.
Qed.

Lemma round_spec (s0 : bool) (q : Q) :
  ~ q == 0 ->
  let a := Qabs q in
  let s := (Qnum q <? 0)%Z in
  (round s0 q = S754_infinity s /\
   2 ^ 1024 <= inject_Z (mant a) * 2 ^ ulp_exp a) \/
  (is_finite (round s0 q) = true /\ sign (round s0 q) = s /\
   F2Q (round s0 q) == sgn s * (inject_Z (mant a) * 2 ^ ulp_exp a) /\
   inject_Z (mant a) * 2 ^ ulp_exp a < 2 ^ 1024).
Proof.
  intros N a s.
  destruct (round_nonzero s0 q N) as (Ha & _ & E). fold a s in Ha, E.
  rewrite E.
  destruct (mant_bounds a Ha) as [B1 B2].
  apply pack_spec; [exact B1 | exact B2 | apply ulp_exp_ge].
Qed.



(** *** [round] depends on the value only, and is monotone *)

Lemma ilog2_comp (a b : Q) : 0 < a -> a == b -> ilog2 a = ilog2 b.
Proof.
  intros Ha E. destruct (ilog2_spec a Ha) as [Lo Hi].
  symmetry. apply ilog2_unique; rewrite <- E; assumption.
Qed.

Lemma ulp_exp_comp (a b : Q) : 0 < a -> a == b -> ulp_exp a = ulp_exp b.
Proof. intros Ha E. unfold ulp_exp. rewrite (ilog2_comp a b Ha E). reflexivity. Qed.

Lemma mant_comp (a b : Q) : 0 < a -> a == b -> mant a = mant b.
Proof.
  intros Ha E. unfold mant. rewrite (ulp_exp_comp a b Ha E).
  apply round_half_even_comp. rewrite E. reflexivity.
Qed.

Lemma Qnum_sign_comp (p q : Q) : p == q -> (Qnum p <? 0)%Z = (Qnum q <? 0)%Z.
Proof.
  intros E. unfold Qeq in E.
  destruct (Z.ltb_spec (Qnum p) 0), (Z.ltb_spec (Qnum q) 0); try reflexivity; nia.
Qed.

Lemma round_comp (s0 : bool) (p q : Q) : p == q -> round s0 p = round s0 q.
Proof.
  intros E. destruct (Qeq_dec p 0) as [Z | N].
  - rewrite (round_zero s0 p Z). symmetry. apply round_zero. rewrite <- E. exact Z.
  - assert (N' : ~ q == 0) by (rewrite <- E; exact N).
    destruct (round_nonzero s0 p N) as (Ha & _ & Ep).
    destruct (round_nonzero s0 q N') as (_ & _ & Eq).
    rewrite Ep, Eq.
    assert (Ea : Qabs p == Qabs q) by (rewrite E; reflexivity).
    rewrite (Qnum_sign_comp p q E), (mant_comp _ _ Ha Ea), (ulp_exp_comp _ _ Ha Ea).
    reflexivity.
Qed.

Lemma ulp_exp_mono (a b : Q) : 0 < a -> a <= b -> (ulp_exp a <= ulp_exp b)%Z.
Proof. intros Ha H. unfold ulp_exp. pose proof (ilog2_mono a b Ha H). lia. Qed.

Lemma rounded_mono (a b : Q) :
  0 < a -> a <= b ->
  inject_Z (mant a) * 2 ^ ulp_exp a <= inject_Z (mant b) * 2 ^ ulp_exp b.
Proof.
  intros Ha H. assert (Hb : 0 < b) by lra.
  pose proof (ulp_exp_mono a b Ha H) as He.
  pose proof (pow2_pos (ulp_exp a)) as Pa.
  pose proof (pow2_pos (ulp_exp b)) as Pb.
  destruct (Z.eq_dec (ulp_exp a) (ulp_exp b)) as [E | N].
  - assert (Hm : (mant a <= mant b)%Z).
    { unfold mant. rewrite E. apply round_half_even_mono.
      apply Qle_shift_div_l; [exact Pb |].
      assert (X : a / 2 ^ ulp_exp b * 2 ^ ulp_exp b == a) by (field; lra).
      lra. }
    rewrite E. rewrite Zle_Qle in Hm. nra.
  - destruct (mant_bounds a Ha) as [[_ Ua] _].
    destruct (mant_bounds b Hb) as [_ Lb].
    specialize (Lb ltac:(pose proof (ulp_exp_ge a); lia)).
    rewrite Zle_Qle in Ua, Lb.
    assert (P : 2 ^ (53 + ulp_exp a) <= 2 ^ (52 + ulp_exp b)) by (apply pow2_le; lia).
    rewrite (pow2_add 53), (pow2_add 52) in P.
    change (2 ^ 53) with (inject_Z 9007199254740992) in P.
    change (2 ^ 52) with (inject_Z 4503599627370496) in P.
    assert (0 <= inject_Z (mant a)) by (destruct (mant_bounds a Ha) as [[L _] _]; rewrite Zle_Qle in L; exact L).
    nra.
Qed.

(** *** Operations on finite floats round the exact result *)

Lemma mul_finite (x y : spec_float) :
  is_finite x = true -> is_finite y = true ->
  mul x y = round (xorb (sign x) (sign y)) (F2Q x * F2Q y).
Proof.
  destruct x as [sx | sx | | sx mx ex], y as [sy | sy | | sy my ey];
    try discriminate; intros _ _; cbn [mul sign].
  - reflexivity.
  - reflexivity.
  - symmetry. apply round_zero. cbn [F2Q]. ring.
  - reflexivity.
Qed.

Lemma div_finite (x y : spec_float) :
  is_finite x = true -> is_finite y = true -> is_zero y = false ->
  div x y = round (xorb (sign x) (sign y)) (F2Q x / F2Q y).
Proof.
  destruct x as [sx | sx | | sx mx ex], y as [sy | sy | | sy my ey];
    try discriminate; intros _ _ _; cbn [div sign].
  - reflexivity.
  - reflexivity.
Qed.

Lemma F2Q_finite_nonzero (s : bool) (m : positive) (e : Z) :
  ~ F2Q (S754_finite s m e) == 0.
Proof.
  cbn [F2Q]. rewrite inject_cond_Zopp. pose proof (pow2_pos e) as P.
  assert (0 < inject_Z (Zpos m)) by reflexivity.
  unfold sgn. destruct s; nra.
Qed.

(** *** Integers below [2^53] are floats *)

Lemma of_Z_exact (z : Z) :
  (Z.abs z < 9007199254740992)%Z ->
  is_finite (of_Z z) = true /\ F2Q (of_Z z) == inject_Z z.
Proof.
  intros B. unfold of_Z.
  destruct (Z.eq_dec z 0) as [-> | N]; [split; reflexivity |].
  assert (Nq : ~ inject_Z z == 0).
  { unfold Qeq. simpl. lia. }
  destruct (round_nonzero false _ Nq) as (Ha & Es & _).
  set (a := Qabs (inject_Z z)) in *.
  assert (Ea : a == inject_Z (Z.abs z)).
  { unfold a, inject_Z. rewrite <- Zabs_Qabs. reflexivity. }
  assert (He : (ulp_exp a <= 0)%Z).
  { destruct (ilog2_spec a Ha) as [Lo _].
    assert (Hlt : 2 ^ ilog2 a < 2 ^ 53).
    { change (2 ^ 53) with (inject_Z 9007199254740992).
      rewrite Zlt_Qlt in B. lra. }
    apply Qpower_lt_compat_l_inv in Hlt; [| reflexivity].
    unfold ulp_exp. lia. }
  assert (Em : inject_Z (mant a) * 2 ^ ulp_exp a == a).
  { unfold mant.
    assert (X : a / 2 ^ ulp_exp a == inject_Z (Z.abs z * 2 ^ (- ulp_exp a))).
    { rewrite inject_Z_mult, pow2_Z by lia. rewrite Qpower_opp.
      transitivity (inject_Z (Z.abs z) / 2 ^ ulp_exp a).
      - apply Qdiv_comp; [exact Ea | reflexivity].
      - field. pose proof (pow2_pos (ulp_exp a)). lra. }
    rewrite X, round_half_even_Z, inject_Z_mult, pow2_Z by lia.
    rewrite Qpower_opp.
    transitivity (inject_Z (Z.abs z)); [| symmetry; exact Ea].
    field. pose proof (pow2_pos (ulp_exp a)). lra. }
  pose proof (round_spec false _ Nq) as RS. cbv zeta in RS. fold a in RS.
  destruct RS as [[_ O] | (F & _ & V & _)].
  - exfalso. rewrite Em, Ea in O. rewrite Zlt_Qlt in B.
    assert (2 ^ 53 <= 2 ^ 1024) by (apply pow2_le; lia).
    change (2 ^ 53) with (inject_Z 9007199254740992) in *. lra.
  - split; [exact F |]. rewrite V, Em. symmetry. exact Es.
Qed.

(** *** Rounding keeps the order of non-negative results *)

Lemma round_nonneg (s0 : bool) (q : Q) :
  0 <= q ->
  (exists s, round s0 q = S754_zero s) \/
  round s0 q = S754_infinity false \/
  (exists m e, round s0 q = S754_finite false m e).
Proof.
  intros Hq. destruct (Qeq_dec q 0) as [Z | N].
  - left. exists s0. apply round_zero, Z.
  - assert (Hs : (Qnum q <? 0)%Z = false).
    { apply Z.ltb_ge. unfold Qle in Hq. simpl in Hq. lia. }
    destruct (round_spec s0 q N) as [[I _] | (F & S & _)]; rewrite Hs in *.
    + right. left. exact I.
    + destruct (round s0 q) as [s | s | | s m e]; try discriminate.
      * left. exists s. reflexivity.
      * right. right. cbn in S. subst s. exists m, e. reflexivity.
Qed.

Lemma round_le (s0 s1 : bool) (p q : Q) :
  0 <= p -> p <= q ->
  py_le (PyFloat (round s0 p)) (PyFloat (round s1 q)) = true.
Proof.
  intros Hp Hpq.
  assert (Hq : 0 <= q) by lra.
  destruct (Qeq_dec p 0) as [Zp | Np].
  - rewrite (round_zero s0 p Zp).
    destruct (round_nonneg s1 q Hq) as [[s ->] | [-> | (m & e & ->)]];
      unfold py_le; cbn [xval xval_float]; try reflexivity.
    apply Qle_bool_iff. cbn [F2Q cond_Zopp].
    pose proof (pow2_pos e). assert (0 < inject_Z (Zpos m)) by reflexivity. nra.
  - assert (Nq : ~ q == 0) by (intros C; apply Np; lra).
    assert (Sp : (Qnum p <? 0)%Z = false).
    { apply Z.ltb_ge. unfold Qle in Hp. simpl in Hp. lia. }
    assert (Sq : (Qnum q <? 0)%Z = false).
    { apply Z.ltb_ge. unfold Qle in Hq. simpl in Hq. lia. }
    assert (Ap : Qabs p == p) by (apply Qabs_pos; exact Hp).
    assert (Aq : Qabs q == q) by (apply Qabs_pos; exact Hq).
    destruct (round_nonzero s0 p Np) as (Pp & _ & _).
    pose proof (rounded_mono (Qabs p) (Qabs q) Pp ltac:(lra)) as Hm.
    destruct (round_spec s0 p Np) as [[Ip Op] | (Fp & _ & Vp & Bp)];
    destruct (round_spec s1 q Nq) as [[Iq Oq] | (Fq & _ & Vq & Bq)];
      rewrite ?Sp, ?Sq in *.
    + rewrite Ip, Iq. reflexivity.
    + exfalso. lra.
    + rewrite Iq. destruct (round s0 p); try discriminate; reflexivity.
    + unfold sgn in Vp, Vq.
      destruct (round s0 p) as [s | s | | s m e] eqn:Ep; try discriminate;
      destruct (round s1 q) as [s' | s' | | s' m' e'] eqn:Eq; try discriminate;
        unfold py_le; cbn [xval xval_float]; apply Qle_bool_iff; lra.
Qed.

(** *** Consequences for the operations of [app.py] *)

Lemma round_sign_irrelevant (s0 s1 : bool) (q : Q) :
  ~ q == 0 -> round s0 q = round s1 q.
Proof.
  intros N.
  destruct (round_nonzero s0 q N) as (_ & _ & ->).
  destruct (round_nonzero s1 q N) as (_ & _ & ->). reflexivity.
Qed.

Lemma xval_float_finite (f : spec_float) :
  is_finite f = true -> xval_float f = XFin (F2Q f).
Proof. destruct f; try discriminate; reflexivity. Qed.

(** A quotient of two integers below [2^53] is the rational quotient,
    rounded. *)
Lemma div_of_Z (a b : Z) :
  (Z.abs a < 9007199254740992)%Z -> (0 < Z.abs b < 9007199254740992)%Z ->
  exists s, div (of_Z a) (of_Z b) = round s (inject_Z a / inject_Z b).
Proof.
  intros Ha Hb.
  destruct (of_Z_exact a Ha) as [Fa Va].
  destruct (of_Z_exact b ltac:(lia)) as [Fb Vb].
  assert (Nb : is_zero (of_Z b) = false).
  { destruct (of_Z b) eqn:E; try reflexivity.
    exfalso. cbn [F2Q] in Vb. unfold Qeq in Vb. simpl in Vb. lia. }
  rewrite (div_finite _ _ Fa Fb Nb).
  eexists. apply round_comp. rewrite Va, Vb. reflexivity.
Qed.

Lemma float_of_int_exact (z : Z) :
  (Z.abs z < 9007199254740992)%Z -> float_of_int z = Ok (of_Z z).
Proof.
  intros B. destruct (of_Z_exact z B) as [F _].
  unfold float_of_int. destruct (of_Z z); try discriminate; reflexivity.
Qed.

(** *** Error bounds in linear form *)










Lemma py_round_ok (p : spec_float) (n : Z) :
  py_round p = Ok n -> is_finite p = true /\ n = round_half_even (F2Q p).
Proof.
  destruct p; cbn [py_round]; intros H; try discriminate;
    injection H as <-; split; reflexivity.
Qed.

Lemma mul_finite_l (a b : spec_float) :
  is_finite (mul a b) = true -> is_finite b = true -> is_zero b = false ->
  is_finite a = true.
Proof. destruct a, b; cbn [mul is_finite is_zero]; congruence. Qed.


Lemma positive_value_finite (b : spec_float) :
  0 < F2Q b -> is_finite b = true /\ is_zero b = false.
Proof. destruct b; cbn [F2Q]; intros H; try lra; split; reflexivity. Qed.





End B64Facts.

Import B64Facts.

(** ** The order on Python numbers *)

Lemma Qle_bool_false (p q : Q) : Qle_bool p q = false <-> (q < p)%Q.
Proof.
  split; intros H.
  - apply Qnot_le_lt. intros C. apply Qle_bool_iff in C. congruence.
  - apply not_true_is_false. intros C. apply Qle_bool_iff in C.
    exact (Qlt_not_le _ _ H C).
Qed.

(** Case analysis on the values two or three numbers are compared by,
    leaving linear facts about rationals. *)
Ltac order_cases :=
  unfold py_gt, py_lt, py_le, py_eq, Qlt_bool in *;
  repeat match goal with
         | |- context [xval ?x] =>
             let v := fresh "v" in set (v := xval x) in *; clearbody v; destruct v
         | H : context [xval ?x] |- _ =>
             let v := fresh "v" in set (v := xval x) in *; clearbody v; destruct v
         end;
  try discriminate; try reflexivity;
  repeat match goal with
         | H : negb _ = true |- _ => apply negb_true_iff in H
         | H : negb _ = false |- _ => apply negb_false_iff in H
         | H : Qle_bool _ _ = true |- _ => apply Qle_bool_iff in H
         | H : Qle_bool _ _ = false |- _ => apply Qle_bool_false in H
         | H : Qeq_bool _ _ = true |- _ => apply Qeq_bool_iff in H
         | |- negb _ = true => apply negb_true_iff
         | |- negb _ = false => apply negb_false_iff
         | |- Qle_bool _ _ = true => apply Qle_bool_iff
         | |- Qle_bool _ _ = false => apply Qle_bool_false
         | |- Qeq_bool _ _ = true => apply Qeq_bool_iff
         end;
  try lra.

Lemma py_lt_le_trans (a b c : pynum) :
  py_lt a b = true -> py_le b c = true -> py_lt a c = true.
Proof. intros H1 H2. order_cases. Qed.

Lemma py_lt_asym (a b : pynum) : py_lt a b = true -> py_lt b a = false.
Proof. intros H. order_cases. Qed.

Lemma py_le_not_lt_eq (a b : pynum) :
  py_le a b = true -> py_lt a b = false -> py_eq a b = true.
Proof. intros H1 H2. order_cases. Qed.

Lemma py_le_refl_eq (a b : pynum) : py_le a b = true -> py_eq b b = true.
Proof. intros H. order_cases. Qed.

Lemma py_le_refl_eq_l (a b : pynum) : py_le a b = true -> py_eq a a = true.
Proof. intros H. order_cases. Qed.

Lemma py_eq_sym (a b : pynum) : py_eq a b = true -> py_eq b a = true.
Proof. intros H. unfold py_eq in *. destruct (xval a), (xval b); try discriminate; try reflexivity.
  apply Qeq_bool_iff in H. apply Qeq_bool_iff. symmetry. exact H. Qed.

(** ** One transaction on the link *)

Section Transport.

Variable CFG : Config.
Variable env : Env.

Lemma close_swallowed (h : list event) :
  try_except_all (close env) (ret tt) h = (Ok tt, h ++ [EvClose]).
Proof.
  unfold try_except_all, close, call, ret.
  destruct (on_close env (h ++ [EvClose])) as [[] | e]; reflexivity.
Qed.

Lemma read_regs_run (addr count : Z) (h : list event) :
  let rq := EvRead addr count (unit_id CFG) in
  let c := on_connect env (at_connect CFG h) in
  read_regs CFG env addr count h =
    (read_outcome c (on_read env (at_request CFG h rq)),
     h ++ EvClient (serial CFG) :: transaction_calls c rq ++ [EvClose]).
Proof.
  intros rq c. subst c rq.
  unfold read_regs, bind, mclient, finally, try_except_Exception, connect,
    read_holding_registers, call, ret, at_connect, at_request.
  rewrite <- !app_assoc. cbn [app].
  destruct (on_connect env _) as [[|] | e]; cbn [negb read_outcome transaction_calls].
  - rewrite <- !app_assoc. cbn [app].
    destruct (on_read env _) as [[r |] | e].
    + destruct (isError r); rewrite close_swallowed, <- !app_assoc; reflexivity.
    + rewrite close_swallowed, <- !app_assoc; reflexivity.
    + destruct (is_Exception e); rewrite close_swallowed, <- !app_assoc; reflexivity.
  - rewrite close_swallowed, <- !app_assoc; reflexivity.
  - destruct (is_Exception e); rewrite close_swallowed, <- !app_assoc; reflexivity.
Qed.

Lemma write_reg_run (addr value : Z) (h : list event) :
  let rq := EvWrite addr value (unit_id CFG) in
  let c := on_connect env (at_connect CFG h) in
  write_reg CFG env addr value h =
    (write_outcome c (on_write env (at_request CFG h rq)),
     h ++ EvClient (serial CFG) :: transaction_calls c rq ++ [EvClose]).
Proof.
  intros rq c. subst c rq.
  unfold write_reg, bind, mclient, finally, try_except_Exception, connect,
    write_register, call, ret, at_connect, at_request.
  rewrite <- !app_assoc. cbn [app].
  destruct (on_connect env _) as [[|] | e]; cbn [negb write_outcome transaction_calls].
  - rewrite <- !app_assoc. cbn [app].
    destruct (on_write env _) as [[r |] | e].
    + rewrite close_swallowed, <- !app_assoc; reflexivity.
    + rewrite close_swallowed, <- !app_assoc; reflexivity.
    + destruct (is_Exception e); rewrite close_swallowed, <- !app_assoc; reflexivity.
  - rewrite close_swallowed, <- !app_assoc; reflexivity.
  - destruct (is_Exception e); rewrite close_swallowed, <- !app_assoc; reflexivity.
Qed.

End Transport.

(** ** What a computation adds to the log *)

Section Appends.

Variable P : event -> Prop.

Lemma appends_ret {A : Type} (a : A) : appends P (ret a).
Proof. intros h. exists []. split; [symmetry; apply app_nil_r | constructor]. Qed.

Lemma appends_lift {A : Type} (r : result A) : appends P (lift r).
Proof. intros h. exists []. split; [symmetry; apply app_nil_r | constructor]. Qed.

Lemma appends_bind {A B : Type} (m : M A) (k : A -> M B) :
  appends P m -> (forall a, appends P (k a)) -> appends P (bind m k).
Proof.
  intros Hm Hk h. unfold bind.
  destruct (Hm h) as (e1 & E1 & F1).
  destruct (m h) as [[a | e] h1]; cbn [snd] in E1; subst h1.
  - destruct (Hk a (h ++ e1)) as (e2 & E2 & F2).
    exists (e1 ++ e2). rewrite E2, app_assoc. split; [reflexivity |].
    apply Forall_app. split; assumption.
  - exists e1. split; [reflexivity | exact F1].
Qed.

Lemma appends_try_except_Exception {A : Type} (body handler : M A) :
  appends P body -> appends P handler ->
  appends P (try_except_Exception body handler).
Proof.
  intros Hb Hh h. unfold try_except_Exception.
  destruct (Hb h) as (e1 & E1 & F1).
  destruct (body h) as [[a | e] h1]; cbn [snd] in E1; subst h1.
  - exists e1. split; [reflexivity | exact F1].
  - destruct (is_Exception e).
    + destruct (Hh (h ++ e1)) as (e2 & E2 & F2).
      exists (e1 ++ e2). rewrite E2, app_assoc. split; [reflexivity |].
      apply Forall_app. split; assumption.
    + exists e1. split; [reflexivity | exact F1].
Qed.

Lemma appends_event {A : Type} (ev : event) (m : M A) :
  P ev -> (forall h, snd (m h) = h ++ [ev]) -> appends P m.
Proof.
  intros Hev Hm h. exists [ev]. split; [apply Hm | repeat constructor; exact Hev].
Qed.

End Appends.

Section AppendsApp.

Variable float_of_str : string -> option spec_float.
Variable CFG : Config.
Variable env : Env.
Variable P : event -> Prop.

Hypothesis P_client : forall p, P (EvClient p).
Hypothesis P_connect : P EvConnect.
Hypothesis P_read : forall a c u, P (EvRead a c u).
Hypothesis P_close : P EvClose.
Hypothesis P_flash : forall msg, P (EvFlash msg).

Lemma transaction_calls_P (c : result bool) (rq : event) :
  P rq -> Forall P (transaction_calls c rq).
Proof.
  intros Hrq. destruct c as [[|] | e]; cbn; repeat constructor; assumption.
Qed.

Lemma appends_read_regs (addr count : Z) : appends P (read_regs CFG env addr count).
Proof.
  intros h. rewrite read_regs_run. cbn [snd].
  eexists. split; [reflexivity |].
  constructor; [apply P_client |].
  apply Forall_app. split; [apply transaction_calls_P, P_read | repeat constructor; exact P_close].
Qed.

Lemma appends_write_reg (addr value : Z) :
  P (EvWrite addr value (unit_id CFG)) ->
  appends P (write_reg CFG env addr value).
Proof.
  intros Hw h. rewrite write_reg_run. cbn [snd].
  eexists. split; [reflexivity |].
  constructor; [apply P_client |].
  apply Forall_app. split; [apply transaction_calls_P, Hw | repeat constructor; exact P_close].
Qed.

Lemma appends_flash (msg : string) : appends P (flash msg).
Proof. apply appends_event with (ev := EvFlash msg); [apply P_flash | reflexivity]. Qed.

(** Every step of a view function is one of the above. *)
Ltac appends_steps :=
  repeat first
    [ simple apply appends_read_regs
    | simple apply appends_flash
    | simple apply appends_ret
    | simple apply appends_lift
    | match goal with |- appends _ (match ?x with _ => _ end) => destruct x end
    | simple apply appends_bind; [| intros ? ] ].

Lemma appends_read_freq_cmd : appends P (read_freq_cmd CFG env).
Proof. unfold read_freq_cmd. appends_steps. Qed.

Lemma appends_read_freq_hz : appends P (read_freq_hz CFG env).
Proof. unfold read_freq_hz. appends_steps. Qed.

Lemma appends_read_current_a : appends P (read_current_a CFG env).
Proof. unfold read_current_a. appends_steps. Qed.

Lemma appends_read_status_text : appends P (read_status_text CFG env).
Proof. unfold read_status_text. appends_steps. Qed.

Lemma appends_read_fault : appends P (read_fault CFG env).
Proof. unfold read_fault. appends_steps. Qed.

Lemma appends_api_status : appends P (api_status CFG env).
Proof.
  unfold api_status.
  repeat first
    [ simple apply appends_read_freq_cmd | simple apply appends_read_freq_hz
    | simple apply appends_read_current_a | simple apply appends_read_status_text
    | simple apply appends_read_fault | simple apply appends_ret
    | simple apply appends_bind; [| intros ? ] ].
Qed.

Lemma appends_index : appends P (index CFG env).
Proof.
  unfold index.
  repeat first
    [ simple apply appends_read_freq_cmd | simple apply appends_read_freq_hz
    | simple apply appends_read_current_a | simple apply appends_read_status_text
    | simple apply appends_read_fault | simple apply appends_ret
    | simple apply appends_lift
    | simple apply appends_bind; [| intros ? ] ].
Qed.

Hypothesis P_cmd : forall v, In v [1; 6; 7] -> P (EvWrite (cmd (regs CFG)) v (unit_id CFG)).
Hypothesis P_freq : forall v, P (EvWrite (freq_set (regs CFG)) v (unit_id CFG)).

Lemma appends_start : appends P (start CFG env).
Proof.
  unfold start. appends_steps. apply appends_write_reg, P_cmd. cbn. tauto.
Qed.

Lemma appends_stop : appends P (stop CFG env).
Proof.
  unfold stop. appends_steps. apply appends_write_reg, P_cmd. cbn. tauto.
Qed.

Lemma appends_reset : appends P (reset CFG env).
Proof.
  unfold reset. appends_steps. apply appends_write_reg, P_cmd. cbn. tauto.
Qed.

Lemma appends_set_frequency (hz : spec_float) : appends P (set_frequency CFG env hz).
Proof.
  unfold set_frequency.
  apply appends_bind; [apply appends_lift | intros value].
  apply appends_bind; [apply appends_write_reg, P_freq | intros ok].
  apply appends_bind; [destruct ok; appends_steps | intros msg].
  appends_steps.
Qed.

Lemma appends_setfreq (f : form) : appends P (setfreq float_of_str CFG env f).
Proof.
  unfold setfreq.
  apply appends_bind.
  - apply appends_try_except_Exception; appends_steps.
  - intros [hz |]; [apply appends_set_frequency | apply appends_ret].
Qed.

Lemma appends_handle (r : request) : appends P (handle float_of_str CFG env r).
Proof.
  unfold handle. apply appends_try_except_Exception; [| apply appends_ret].
  destruct r; cbn [dispatch].
  - apply appends_api_status.
  - apply appends_index.
  - apply appends_start.
  - apply appends_stop.
  - apply appends_reset.
  - apply appends_setfreq.
Qed.

Lemma appends_serve (rs : list request) : appends P (serve float_of_str CFG env rs).
Proof.
  induction rs as [| r rest IH]; cbn [serve].
  - apply appends_ret.
  - apply appends_bind; [apply appends_handle | intros resp].
    apply appends_bind; [exact IH | intros resps]. apply appends_ret.
Qed.

End AppendsApp.

(** ** Helper facts about numbers and the band *)

Lemma py_le_finite (x y : spec_float) :
  B64.is_finite x = true -> B64.is_finite y = true ->
  py_le (PyFloat x) (PyFloat y) = true -> (B64.F2Q x <= B64.F2Q y)%Q.
Proof.
  intros Fx Fy. unfold py_le. cbn [xval].
  rewrite (xval_float_finite x Fx), (xval_float_finite y Fy).
  apply Qle_bool_iff.
Qed.

Lemma zero_le_round (s : bool) (q : Q) :
  (0 <= q)%Q -> py_le (PyInt 0) (PyFloat (B64.round s q)) = true.
Proof.
  intros Hq. unfold py_le. cbn [xval].
  destruct (round_nonneg s q Hq) as [[s' ->] | [-> | (m & e & ->)]];
    cbn [xval_float]; try reflexivity.
  apply Qle_bool_iff. cbn [B64.F2Q cond_Zopp].
  pose proof (pow2_pos e). assert (0 < inject_Z (Zpos m))%Q by reflexivity.
  change (inject_Z 0) with 0%Q. nra.
Qed.









(** ** The claims *)

(** C1: with limits 25 and 50 Hz and base frequency 50 Hz, a request of
    60 Hz is clamped to 50, encoded to 10000, and written: the transaction
    on the set-point register carries the value 10000, and when the write
    succeeds the flashed message reports 50.00 Hz and the raw value 10000
    (when it fails the message is [Write failed]; an exception that
    [write_reg] lets through is not caught here). This holds for every
    link and every other field of the configuration. *)
Theorem setfreq_60_scenario
  (sp : SerialParams) (uid : Z) (rg : Regs) (rated : option pynum)
  (env : Env) (h : list event) :
  let cfg := {| serial := sp; unit_id := uid; regs := rg;
                limits_hz_min := PyInt 25; limits_hz_max := PyInt 50;
                base_freq_hz := PyInt 50; rated_current_a := rated |} in
  let c := on_connect env (at_connect cfg h) in
  let rq := EvWrite (freq_set rg) 10000 uid in
  let log := h ++ EvClient sp :: transaction_calls c rq ++ [EvClose] in
  clamp_hz cfg (f64 60) = PyInt 50 /\
  pct10k_from_hz cfg (PyInt 50) = Ok 10000 /\
  set_frequency cfg env (f64 60) h =
    match write_outcome c (on_write env (at_request cfg h rq)) with
    | Ok true =>
        (Ok (Redirect "index"), log ++ [EvFlash "Set 50.00 Hz (cmd=10000)"])
    | Ok false => (Ok (Redirect "index"), log ++ [EvFlash "Write failed"])
    | Raise e => (Raise e, log)
    end.
Proof.
  intros cfg c rq log.
  assert (Hc : clamp_hz cfg (f64 60) = PyInt 50) by (vm_compute; reflexivity).
  assert (He : pct10k_from_hz cfg (PyInt 50) = Ok 10000)
    by (vm_compute; reflexivity).
  split; [exact Hc | split; [exact He |]].
  unfold set_frequency. rewrite Hc.
  unfold bind at 1. unfold lift at 1. rewrite He.
  unfold bind at 1. rewrite write_reg_run.
  change (unit_id cfg) with uid. change (regs cfg) with rg.
  change (serial cfg) with sp. fold c rq log.
  destruct (write_outcome c _) as [[|] | e]; reflexivity.
Qed.

(** The same request through the view function, on a link that works. *)
Example setfreq_60_on_a_working_link :
  setfreq float_of_digits example_cfg (env_ok []) [("freq", "60")%string] []
  = (Ok (Redirect "index"),
     [EvClient example_serial; EvConnect; EvWrite 4096 10000 1; EvClose;
      EvFlash "Set 50.00 Hz (cmd=10000)"]).
Proof. vm_compute. reflexivity. Qed.

(** C2: with [min <= max], [clamp_hz] returns [min] itself below the
    band; above the band it returns a number equal to [max] ([max] itself
    when [min < max], and [min], which then equals [max], when the band is
    a single point); inside the band it returns a number equal to [hz]
    ([hz] itself strictly inside). Equality of numbers is Python's [==]. *)
Theorem clamp_hz_spec (cfg : Config) (hz : spec_float) :
  let lo := limits_hz_min cfg in
  let hi := limits_hz_max cfg in
  py_le lo hi = true ->
  (py_lt (PyFloat hz) lo = true -> clamp_hz cfg hz = lo) /\
  (py_gt (PyFloat hz) hi = true ->
     py_eq (clamp_hz cfg hz) hi = true /\
     (py_lt lo hi = true -> clamp_hz cfg hz = hi)) /\
  (py_le lo (PyFloat hz) = true -> py_le (PyFloat hz) hi = true ->
     py_eq (clamp_hz cfg hz) (PyFloat hz) = true /\
     (py_lt lo (PyFloat hz) = true -> py_lt (PyFloat hz) hi = true ->
        clamp_hz cfg hz = PyFloat hz)).
Proof.
  intros lo hi Hband. unfold clamp_hz. fold lo hi.
  set (x := PyFloat hz). unfold py_max, py_min, py_gt.
  split; [| split].
  - intros Hlt.
    rewrite (py_lt_le_trans x lo hi Hlt Hband).
    rewrite (py_lt_asym x lo Hlt). reflexivity.
  - intros Hgt. rewrite (py_lt_asym hi x Hgt).
    destruct (py_lt lo hi) eqn:Hs.
    + split; [| reflexivity]. exact (py_le_refl_eq lo hi Hband).
    + split; [| discriminate]. exact (py_le_not_lt_eq lo hi Hband Hs).
  - intros Hlo Hhi.
    destruct (py_lt x hi) eqn:Hxh.
    + destruct (py_lt lo x) eqn:Hlx.
      * split; [| reflexivity]. exact (py_le_refl_eq lo x Hlo).
      * split; [| discriminate]. exact (py_le_not_lt_eq lo x Hlo Hlx).
    + assert (Exh : py_eq x hi = true) by exact (py_le_not_lt_eq x hi Hhi Hxh).
      destruct (py_lt lo hi) eqn:Hlh.
      * split; [| discriminate]. apply py_eq_sym. exact Exh.
      * split; [| discriminate].
        clear - Hlo Hhi Hxh Hlh Hband. order_cases.
Qed.

Lemma clamp_hz_spec_witness :
  (py_lt (PyFloat (f64 10)) (PyInt 25) = true ->
   clamp_hz example_cfg (f64 10) = PyInt 25) /\
  (py_gt (PyFloat (f64 10)) (PyInt 50) = true ->
     py_eq (clamp_hz example_cfg (f64 10)) (PyInt 50) = true /\
     (py_lt (PyInt 25) (PyInt 50) = true ->
      clamp_hz example_cfg (f64 10) = PyInt 50)) /\
  (py_le (PyInt 25) (PyFloat (f64 10)) = true ->
   py_le (PyFloat (f64 10)) (PyInt 50) = true ->
     py_eq (clamp_hz example_cfg (f64 10)) (PyFloat (f64 10)) = true /\
     (py_lt (PyInt 25) (PyFloat (f64 10)) = true ->
      py_lt (PyFloat (f64 10)) (PyInt 50) = true ->
        clamp_hz example_cfg (f64 10) = PyFloat (f64 10))).
Proof.
  apply (clamp_hz_spec example_cfg (f64 10)). reflexivity.
Defined.

(** The three cases on the band from 25 to 50 Hz. *)
Example clamp_hz_examples :
  clamp_hz example_cfg (f64 10) = PyInt 25 /\
  clamp_hz example_cfg (f64 60) = PyInt 50 /\
  clamp_hz example_cfg (f64 30) = PyFloat (f64 30) /\
  clamp_hz example_cfg S754_nan = PyInt 50.
Proof. vm_compute. repeat split. Qed.

(** What each command view does: one write of its code to the command
    register, then the flashed outcome. *)
Lemma command_view_run (c : command) (cfg : Config) (env : Env) (h : list event) :
  command_view c cfg env h =
    match write_reg cfg env (cmd (regs cfg)) (command_code c) h with
    | (Ok ok, h') =>
        (Ok (Redirect "index"),
         h' ++ [EvFlash (command_name c ++ " " ++ (if ok then "OK" else "FAILED"))])
    | (Raise e, h') => (Raise e, h')
    end.
Proof.
  destruct c; cbn [command_view command_code command_name];
    unfold start, stop, reset, bind, flash, ret;
    destruct (write_reg cfg env _ _ h) as [[[|] | e] h']; reflexivity.
Qed.

Lemma command_code_inj (c c' : command) :
  command_code c = command_code c' -> c = c'.
Proof. destruct c, c'; cbn; intros H; congruence. Qed.

(** C3, as stated, fails: nothing keeps the configuration from mapping the
    frequency set-point to the address of the command register, and then
    [setfreq] writes an encoded frequency there. With both at address 8192,
    a request of 50 Hz writes 10000 to the command register, which is the
    code of no command. *)
Lemma command_register_aliased :
  In (EvWrite (cmd (regs aliased_cfg)) 10000 1)
     (snd (serve float_of_digits aliased_cfg (env_ok [])
             [PostSetfreq [("freq", "50")%string]] []))
  /\ forall c, command_code c <> 10000.
Proof.
  split.
  - vm_compute. auto.
  - intros [| |]; discriminate.
Qed.

(** C3, amended: when the set-point register and the command register are
    different addresses, every write to the command register that any
    sequence of requests causes, on any link, carries the code of exactly
    one command (1 for Start, 6 for Stop, 7 for Reset); and each command
    view is one [write_reg] of its code to the command register. *)
Theorem command_register_writes
  (float_of_str : string -> option spec_float) (cfg : Config) (env : Env)
  (rs : list request) :
  freq_set (regs cfg) <> cmd (regs cfg) ->
  (forall a v u,
     In (EvWrite a v u) (snd (serve float_of_str cfg env rs [])) ->
     a = cmd (regs cfg) ->
     exists c, v = command_code c /\ forall c', v = command_code c' -> c' = c)
  /\
  (forall c env' h,
     command_view c cfg env' h =
       match write_reg cfg env' (cmd (regs cfg)) (command_code c) h with
       | (Ok ok, h') =>
           (Ok (Redirect "index"),
            h' ++ [EvFlash (command_name c ++ " "
                            ++ (if ok then "OK" else "FAILED"))])
       | (Raise e, h') => (Raise e, h')
       end).
Proof.
  intros Hne. split; [| intros; apply command_view_run].
  intros a v u Hin Ha.
  assert (Hok : command_write_ok cfg (EvWrite a v u) = true).
  { destruct (appends_serve float_of_str cfg env
                (fun ev => command_write_ok cfg ev = true))
      with (rs := rs) (h := @nil event) as (ext & E & F); try reflexivity.
    - intros w [<- | [<- | [<- | []]]]; cbn; rewrite Z.eqb_refl; reflexivity.
    - intros w. cbn.
      destruct (Z.eqb_spec (freq_set (regs cfg)) (cmd (regs cfg)));
        [contradiction | reflexivity].
    - rewrite E in Hin. cbn [app] in Hin.
      rewrite Forall_forall in F. apply F, Hin. }
  cbn in Hok. subst a. rewrite Z.eqb_refl in Hok.
  rewrite !orb_true_iff in Hok.
  destruct Hok as [H | [H | [H | H]]]; try discriminate;
    apply Z.eqb_eq in H; subst v;
    [exists Start | exists Stop | exists Reset];
    (split; [reflexivity |]);
    intros c' E; apply command_code_inj; symmetry; exact E.
Qed.

Lemma command_register_writes_witness :
  (forall a v u,
     In (EvWrite a v u)
        (snd (serve float_of_digits example_cfg (env_ok [])
                [PostStart; PostSetfreq [("freq", "60")%string]; PostStop;
                 PostReset] [])) ->
     a = cmd (regs example_cfg) ->
     exists c, v = command_code c /\ forall c', v = command_code c' -> c' = c)
  /\
  (forall c env' h,
     command_view c example_cfg env' h =
       match write_reg example_cfg env' (cmd (regs example_cfg))
               (command_code c) h with
       | (Ok ok, h') =>
           (Ok (Redirect "index"),
            h' ++ [EvFlash (command_name c ++ " "
                            ++ (if ok then "OK" else "FAILED"))])
       | (Raise e, h') => (Raise e, h')
       end).
Proof.
  apply (command_register_writes float_of_digits example_cfg (env_ok [])
           [PostStart; PostSetfreq [("freq", "60")%string]; PostStop;
            PostReset]).
  discriminate.
Defined.

(** The log of that run: the three command codes go to the command
    register at 8192, the encoded frequency to the set-point at 4096. *)
Example command_register_run :
  snd (serve float_of_digits example_cfg (env_ok [])
         [PostStart; PostSetfreq [("freq", "60")%string]; PostStop;
          PostReset] [])
  = [EvClient example_serial; EvConnect; EvWrite 8192 1 1; EvClose;
     EvFlash "START OK";
     EvClient example_serial; EvConnect; EvWrite 4096 10000 1; EvClose;
     EvFlash "Set 50.00 Hz (cmd=10000)";
     EvClient example_serial; EvConnect; EvWrite 8192 6 1; EvClose;
     EvFlash "STOP OK";
     EvClient example_serial; EvConnect; EvWrite 8192 7 1; EvClose;
     EvFlash "RESET OK"].
Proof. vm_compute. reflexivity. Qed.

Lemma read_regs_cannot_open
  (cfg : Config) (env : Env) (addr count : Z) (h : list event) :
  cannot_open env ->
  read_regs cfg env addr count h
  = (Ok None, h ++ [EvClient (serial cfg); EvConnect; EvClose]).
Proof.
  intros Hdown. rewrite read_regs_run.
  destruct (Hdown (at_connect cfg h)) as [-> | (e & -> & He)];
    cbn [read_outcome transaction_calls]; [| rewrite He]; reflexivity.
Qed.

Lemma write_reg_cannot_open
  (cfg : Config) (env : Env) (addr value : Z) (h : list event) :
  cannot_open env ->
  write_reg cfg env addr value h
  = (Ok false, h ++ [EvClient (serial cfg); EvConnect; EvClose]).
Proof.
  intros Hdown. rewrite write_reg_run.
  destruct (Hdown (at_connect cfg h)) as [-> | (e & -> & He)];
    cbn [write_outcome transaction_calls]; [| rewrite He]; reflexivity.
Qed.

(** C4: when the link cannot be opened ([connect] returns [False] or
    raises an [Exception]), every read returns [None], [read_status_text]
    returns the text [No comm], every write returns [False] (so [start]
    flashes [START FAILED]), and each of them returns normally: the
    outcome is a value, not a raised exception. The client is still built,
    asked to connect, and closed. *)
Theorem no_comm_when_link_cannot_open
  (cfg : Config) (env : Env) (h : list event) :
  cannot_open env ->
  let h' := h ++ [EvClient (serial cfg); EvConnect; EvClose] in
  (forall addr count, read_regs cfg env addr count h = (Ok None, h')) /\
  read_freq_hz cfg env h = (Ok None, h') /\
  read_freq_cmd cfg env h = (Ok None, h') /\
  read_current_a cfg env h = (Ok None, h') /\
  read_fault cfg env h = (Ok None, h') /\
  read_status_text cfg env h = (Ok "No comm"%string, h') /\
  (forall addr value, write_reg cfg env addr value h = (Ok false, h')) /\
  start cfg env h = (Ok (Redirect "index"), h' ++ [EvFlash "START FAILED"]).
Proof.
  intros Hdown h'.
  unfold read_freq_hz, read_freq_cmd, read_current_a, read_fault,
    read_status_text, start, bind.
  rewrite !read_regs_cannot_open by exact Hdown.
  rewrite !write_reg_cannot_open by exact Hdown.
  repeat split.
  - intros. apply read_regs_cannot_open, Hdown.
  - intros. apply write_reg_cannot_open, Hdown.
Qed.

Lemma no_comm_witness :
  read_freq_hz example_cfg env_down []
    = (Ok None, [EvClient example_serial; EvConnect; EvClose]) /\
  read_status_text example_cfg env_down []
    = (Ok "No comm"%string, [EvClient example_serial; EvConnect; EvClose]) /\
  write_reg example_cfg env_down 8192 1 []
    = (Ok false, [EvClient example_serial; EvConnect; EvClose]).
Proof.
  pose proof (no_comm_when_link_cannot_open example_cfg env_down []
                (fun h => or_introl eq_refl)) as (_ & A & _ & _ & _ & B & C & _).
  exact (conj A (conj B (C 8192 1))).
Defined.

(** A status snapshot over a dead link: five transactions, each closed,
    and a response with every field absent but the status text. *)
Example api_status_on_a_dead_link :
  api_status example_cfg env_down []
  = (Ok (Json {| sd_status := "No comm"; sd_fault := None;
                 sd_freq_cmd := None; sd_freq_act := None;
                 sd_amps := None |}),
     [EvClient example_serial; EvConnect; EvClose;
      EvClient example_serial; EvConnect; EvClose;
      EvClient example_serial; EvConnect; EvClose;
      EvClient example_serial; EvConnect; EvClose;
      EvClient example_serial; EvConnect; EvClose]).
Proof. vm_compute. reflexivity. Qed.

Lemma transaction_calls_no_close (c : result bool) (rq : event) :
  rq <> EvClose -> ~ In EvClose (transaction_calls c rq).
Proof.
  intros N. destruct c as [[|] | e]; cbn; intuition congruence.
Qed.

(** C6: in [read_regs] and in [write_reg], whatever [connect] and the
    request answer (a value, an error response, [None], an [Exception], or
    an exception that propagates), the log of the call is the client being
    built, its calls, and [close] as the last call, exactly once. The
    outcome is the one the [try] block decided from the answers to
    [connect] and to the request, and it does not depend on how [close]
    behaves: a [close] that raises changes neither the outcome nor the
    log. *)
Theorem transport_closes_on_every_path
  (cfg : Config) (env : Env) (addr count value : Z) (h : list event) :
  (exists calls,
      snd (read_regs cfg env addr count h)
      = h ++ EvClient (serial cfg) :: calls ++ [EvClose]
      /\ ~ In EvClose calls) /\
  (exists calls,
      snd (write_reg cfg env addr value h)
      = h ++ EvClient (serial cfg) :: calls ++ [EvClose]
      /\ ~ In EvClose calls) /\
  fst (read_regs cfg env addr count h)
    = read_outcome (on_connect env (at_connect cfg h))
        (on_read env (at_request cfg h (EvRead addr count (unit_id cfg)))) /\
  fst (write_reg cfg env addr value h)
    = write_outcome (on_connect env (at_connect cfg h))
        (on_write env (at_request cfg h (EvWrite addr value (unit_id cfg)))) /\
  (forall c, read_regs cfg (with_close env c) addr count h
             = read_regs cfg env addr count h) /\
  (forall c, write_reg cfg (with_close env c) addr value h
             = write_reg cfg env addr value h).
Proof.
  rewrite read_regs_run, write_reg_run. cbn [fst snd].
  repeat split.
  - eexists. split; [reflexivity |].
    apply transaction_calls_no_close. discriminate.
  - eexists. split; [reflexivity |].
    apply transaction_calls_no_close. discriminate.
  - intros c. rewrite read_regs_run. reflexivity.
  - intros c. rewrite write_reg_run. reflexivity.
Qed.

(** A read whose [close] raises [KeyboardInterrupt] after a good answer
    still returns the registers, and a read interrupted in the request
    itself is still closed before the interrupt propagates. *)
Example close_failure_is_swallowed :
  read_regs example_cfg
    (with_close (env_ok [7]) (fun _ => Raise KeyboardInterrupt)) 4096 1 []
  = (Ok (Some [7]),
     [EvClient example_serial; EvConnect; EvRead 4096 1 1; EvClose]) /\
  read_regs example_cfg
    {| on_connect := fun _ => Ok true;
       on_read := fun _ => Raise KeyboardInterrupt;
       on_write := fun _ => Raise KeyboardInterrupt;
       on_close := fun _ => Raise SerialException |} 4096 1 []
  = (Raise KeyboardInterrupt,
     [EvClient example_serial; EvConnect; EvRead 4096 1 1; EvClose]).
Proof. vm_compute. split; reflexivity. Qed.

(** C7: the current decode changes scale strictly above 200.
    [decode_current 200] is the float 200.0 and [decode_current 201] is
    the float nearest to 201/100, which is Python's [2.01]. In general a
    raw value above 200 is decoded as [raw / 100.0] and one of at most 200
    as [float(raw)]; for a register value (0 to 65535) the first is the
    float nearest to raw/100 and the second is the integer [raw] exactly. *)
Theorem decode_current_scale :
  decode_current 200 = Ok (f64 200) /\
  (B64.F2Q (f64 200) == 200)%Q /\
  decode_current 201 = Ok (B64.round false (201 # 100)) /\
  format_2f_float (B64.round false (201 # 100)) = "2.01"%string /\
  (forall raw, 200 < raw ->
     decode_current raw = py_truediv (PyInt raw) (f64 100)) /\
  (forall raw, raw <= 200 -> decode_current raw = float_of_int raw) /\
  (forall raw, 0 <= raw <= 65535 -> 200 < raw ->
     decode_current raw = Ok (B64.round false (raw # 100))) /\
  (forall raw, 0 <= raw <= 65535 -> raw <= 200 ->
     exists f, decode_current raw = Ok f /\ B64.is_finite f = true /\
               (B64.F2Q f == inject_Z raw)%Q).
Proof.
  assert (G : forall raw, 200 < raw ->
                decode_current raw = py_truediv (PyInt raw) (f64 100)).
  { intros raw H. unfold decode_current.
    destruct (Z.gtb_spec raw 200) as [_ | C]; [reflexivity | lia]. }
  assert (L : forall raw, raw <= 200 -> decode_current raw = float_of_int raw).
  { intros raw H. unfold decode_current.
    destruct (Z.gtb_spec raw 200) as [C | _]; [lia | reflexivity]. }
  split; [vm_compute; reflexivity |].
  split; [vm_compute; reflexivity |].
  split; [vm_compute; reflexivity |].
  split; [vm_compute; reflexivity |].
  split; [exact G |]. split; [exact L |]. split.
  - intros raw R H. rewrite (G raw H). unfold py_truediv. cbn [py_float].
    rewrite float_of_int_exact by lia. cbn [rbind].
    change (B64.is_zero (f64 100)) with false. cbv iota.
    destruct (div_of_Z raw 100 ltac:(lia) ltac:(lia)) as (s & E).
    unfold f64. rewrite E. f_equal.
    rewrite (round_sign_irrelevant s false).
    + apply round_comp. rewrite (Qmake_Qdiv raw 100). reflexivity.
    + intros C. assert (X : (inject_Z raw == 0)%Q).
      { rewrite <- (Qmult_div_r (inject_Z raw) (inject_Z 100)) by discriminate.
        rewrite C. ring. }
      unfold Qeq in X. simpl in X. lia.
  - intros raw R H. rewrite (L raw H). exists (B64.of_Z raw).
    rewrite float_of_int_exact by lia.
    destruct (of_Z_exact raw ltac:(lia)) as [F V]. auto.
Qed.

(** C8: the status decode has a text for every raw value: 1, 2 and 3 are
    [RUN FWD], [RUN REV] and [STOP], and every other value is [STATE]
    followed by the value in decimal, as for 9. It is what
    [read_status_text] returns for the first register of a good read. *)
Theorem decode_status_total :
  decode_status 1 = "RUN FWD"%string /\
  decode_status 2 = "RUN REV"%string /\
  decode_status 3 = "STOP"%string /\
  decode_status 9 = "STATE 9"%string /\
  (forall raw, raw <> 1 -> raw <> 2 -> raw <> 3 ->
     decode_status raw = ("STATE " ++ py_str_int raw)%string) /\
  (forall cfg env h raw rest,
     on_connect env (at_connect cfg h) = Ok true ->
     on_read env (at_request cfg h (EvRead (status (regs cfg)) 1 (unit_id cfg)))
       = Ok (Some {| isError := false; registers := raw :: rest |}) ->
     fst (read_status_text cfg env h) = Ok (decode_status raw)).
Proof.
  repeat split.
  - intros raw N1 N2 N3. unfold decode_status.
    destruct raw as [| [p | p |] | p]; try reflexivity; try contradiction;
      destruct p as [p | p |]; try reflexivity; contradiction.
  - intros cfg env h raw rest Hc Hr.
    unfold read_status_text, bind. rewrite read_regs_run, Hc, Hr. reflexivity.
Qed.

(** C9: when the [freq] field of the form is missing or is a text that
    [float] rejects, [setfreq] flashes [Invalid frequency] and redirects;
    the log gains that message and nothing else, so no client is built and
    no register is written, whatever the configuration (even one on which
    the encoding would raise) and whatever the link. *)
Theorem setfreq_rejects_unparsable
  (float_of_str : string -> option spec_float) (cfg : Config) (env : Env)
  (f : form) (h : list event) :
  (forall s, form_get f "freq" = Ok s -> float_of_str s = None) ->
  setfreq float_of_str cfg env f h
  = (Ok (Redirect "index"), h ++ [EvFlash "Invalid frequency"]).
Proof.
  intros Hbad.
  unfold setfreq, bind, try_except_Exception, lift, flash, ret.
  destruct (form_get f "freq") as [s | e] eqn:Eg; cbn [rbind].
  - unfold py_float_of_str. rewrite (Hbad s eq_refl). reflexivity.
  - assert (Ee : e = BadRequestKeyError).
    { clear - Eg. induction f as [| [k v] rest IH]; cbn in Eg.
      - congruence.
      - destruct (String.eqb k "freq"); [discriminate | exact (IH Eg)]. }
    subst e. reflexivity.
Qed.

Lemma setfreq_rejects_unparsable_witness :
  setfreq float_of_digits example_cfg (env_ok [])
    [("freq", "fast")%string] []
  = (Ok (Redirect "index"), [EvFlash "Invalid frequency"]).
Proof.
  apply (setfreq_rejects_unparsable float_of_digits example_cfg (env_ok [])
           [("freq", "fast")%string] []).
  intros s E. cbn in E. injection E as <-. reflexivity.
Defined.








(** The round trip on the band from 25 to 50 Hz at 37.5, 33.333 and 50 Hz:
    the raw values, and what decoding returns. *)
Example freq_cmd_roundtrip_examples :
  pct10k_from_hz example_cfg (PyFloat (B64.round false (75 # 2))) = Ok 7500 /\
  decode_freq_cmd example_cfg 7500 = Ok (B64.round false (75 # 2)) /\
  pct10k_from_hz example_cfg (PyFloat (B64.round false (33333 # 1000)))
    = Ok 6667 /\
  decode_freq_cmd example_cfg 6667 = Ok (B64.round false (33335 # 1000)) /\
  pct10k_from_hz example_cfg (PyInt 50) = Ok 10000 /\
  decode_freq_cmd example_cfg 10000 = Ok (f64 50).
Proof. vm_compute. repeat split. Qed.




(** A register holding 40000 with a base of 50 Hz reads as 200 Hz. *)
Example read_freq_cmd_40000 :
  fst (read_freq_cmd example_cfg (env_ok [40000]) []) = Ok (Some (f64 200)).
Proof. vm_compute. reflexivity. Qed.

(** ** Further properties of the decoding and of the commands *)

(** The frequency feedback register is in hundredths of a hertz: for an
    answer of the transport whose first register is [raw], [read_freq_hz]
    returns the float nearest to [raw / 100], for 0 and for negative
    values as well. *)
Theorem read_freq_hz_decode
  (cfg : Config) (env : Env) (h : list event) (raw : Z) (rest : list Z) :
  on_connect env (at_connect cfg h) = Ok true ->
  on_read env (at_request cfg h (EvRead (freq_fb (regs cfg)) 1 (unit_id cfg)))
    = Ok (Some {| isError := false; registers := raw :: rest |}) ->
  Z.abs raw < 9007199254740992 ->
  fst (read_freq_hz cfg env h) = Ok (Some (B64.round false (raw # 100))).
Proof.
  intros Hc Hr Hraw.
  unfold read_freq_hz, bind. rewrite read_regs_run, Hc, Hr.
  cbn [read_outcome isError registers lift index0].
  unfold py_truediv. cbn [py_float].
  rewrite float_of_int_exact by exact Hraw. cbn [rbind].
  change (B64.is_zero (f64 100)) with false. cbv iota.
  unfold ret. cbn [fst]. do 2 f_equal.
  destruct (Z.eq_dec raw 0) as [-> | N]; [reflexivity |].
  destruct (div_of_Z raw 100 Hraw ltac:(lia)) as (s & E).
  unfold f64. rewrite E.
  rewrite (round_sign_irrelevant s false).
  - apply round_comp. rewrite (Qmake_Qdiv raw 100). reflexivity.
  - intros C. assert (X : (inject_Z raw == 0)%Q).
    { rewrite <- (Qmult_div_r (inject_Z raw) (inject_Z 100)) by discriminate.
      rewrite C. ring. }
    unfold Qeq in X. simpl in X. lia.
Qed.

Lemma read_freq_hz_decode_witness :
  fst (read_freq_hz example_cfg (env_ok [4999]) [])
  = Ok (Some (B64.round false (4999 # 100))).
Proof.
  apply (read_freq_hz_decode example_cfg (env_ok [4999]) [] 4999 []).
  - reflexivity.
  - reflexivity.
  - lia.
Defined.

(** The fault register is passed through as it is read. *)
Theorem read_fault_passthrough
  (cfg : Config) (env : Env) (h : list event) (raw : Z) (rest : list Z) :
  on_connect env (at_connect cfg h) = Ok true ->
  on_read env (at_request cfg h (EvRead (fault (regs cfg)) 1 (unit_id cfg)))
    = Ok (Some {| isError := false; registers := raw :: rest |}) ->
  read_fault cfg env h
  = (Ok (Some raw),
     h ++ [EvClient (serial cfg); EvConnect;
           EvRead (fault (regs cfg)) 1 (unit_id cfg); EvClose]).
Proof.
  intros Hc Hr. unfold read_fault, bind.
  rewrite read_regs_run, Hc, Hr. reflexivity.
Qed.

Lemma read_fault_passthrough_witness :
  read_fault example_cfg (env_ok [17]) []
  = (Ok (Some 17),
     [EvClient example_serial; EvConnect; EvRead 32768 1 1; EvClose]).
Proof.
  apply (read_fault_passthrough example_cfg (env_ok [17]) [] 17 []);
    reflexivity.
Defined.

(** Two Stop commands in a row issue the same write, of the code 6 to the
    command register, whatever the first one met, and each flashes the
    outcome of its own transaction. *)
Theorem stop_twice
  (cfg : Config) (env : Env) (h : list event) (ok1 ok2 : bool) :
  let rq := EvWrite (cmd (regs cfg)) 6 (unit_id cfg) in
  let c1 := on_connect env (at_connect cfg h) in
  let h1 := h ++ EvClient (serial cfg) :: transaction_calls c1 rq
              ++ [EvClose; EvFlash ("STOP " ++ ok_or_failed ok1)] in
  let c2 := on_connect env (at_connect cfg h1) in
  write_outcome c1 (on_write env (at_request cfg h rq)) = Ok ok1 ->
  write_outcome c2 (on_write env (at_request cfg h1 rq)) = Ok ok2 ->
  bind (stop cfg env) (fun _ => stop cfg env) h
  = (Ok (Redirect "index"),
     h1 ++ EvClient (serial cfg) :: transaction_calls c2 rq
        ++ [EvClose; EvFlash ("STOP " ++ ok_or_failed ok2)]).
Proof.
  intros rq c1 h1 c2 H1 H2.
  assert (Step : forall k ok,
            write_outcome (on_connect env (at_connect cfg k))
              (on_write env (at_request cfg k rq)) = Ok ok ->
            stop cfg env k
            = (Ok (Redirect "index"),
               k ++ EvClient (serial cfg)
                 :: transaction_calls (on_connect env (at_connect cfg k)) rq
                 ++ [EvClose; EvFlash ("STOP " ++ ok_or_failed ok)])).
  { intros k ok E. unfold stop, bind. rewrite write_reg_run. fold rq.
    rewrite E. unfold flash, ret. f_equal.
    rewrite <- !app_assoc. cbn [app]. rewrite <- !app_assoc. reflexivity. }
  unfold bind. rewrite (Step h ok1 H1). fold c1 h1.
  apply (Step h1 ok2 H2).
Qed.

Lemma stop_twice_witness :
  bind (stop example_cfg env_late) (fun _ => stop example_cfg env_late) []
  = (Ok (Redirect "index"),
     [EvClient example_serial; EvConnect; EvClose; EvFlash "STOP FAILED";
      EvClient example_serial; EvConnect; EvWrite 8192 6 1; EvClose;
      EvFlash "STOP OK"]).
Proof.
  apply (stop_twice example_cfg env_late [] false true); reflexivity.
Defined.

(** ** Invariants of the log *)

Section Keeps.

Variable I : list event -> Prop.

Lemma keeps_ret {A : Type} (a : A) : keeps I (ret a).
Proof. intros h Hh. exact Hh. Qed.

Lemma keeps_lift {A : Type} (r : result A) : keeps I (lift r).
Proof. intros h Hh. exact Hh. Qed.

Lemma keeps_bind {A B : Type} (m : M A) (k : A -> M B) :
  keeps I m -> (forall a, keeps I (k a)) -> keeps I (bind m k).
Proof.
  intros Hm Hk h Hh. unfold bind. specialize (Hm h Hh).
  destruct (m h) as [[a | e] h1]; cbn [snd] in *; [apply Hk |]; exact Hm.
Qed.

Lemma keeps_try_except_Exception {A : Type} (body handler : M A) :
  keeps I body -> keeps I handler -> keeps I (try_except_Exception body handler).
Proof.
  intros Hb Hh h Hi. unfold try_except_Exception. specialize (Hb h Hi).
  destruct (body h) as [[a | e] h1]; cbn [snd] in *; [exact Hb |].
  destruct (is_Exception e); [apply Hh |]; exact Hb.
Qed.

End Keeps.

Section KeepsApp.

Variable float_of_str : string -> option spec_float.
Variable CFG : Config.
Variable env : Env.
Variable I : list event -> Prop.

Hypothesis I_read : forall a, In a (read_addresses CFG) -> forall h c, I h ->
  I (h ++ EvClient (serial CFG)
       :: transaction_calls c (EvRead a 1 (unit_id CFG)) ++ [EvClose]).
Hypothesis I_cmd : forall v, In v [1; 6; 7] -> forall h c, I h ->
  I (h ++ EvClient (serial CFG)
       :: transaction_calls c (EvWrite (cmd (regs CFG)) v (unit_id CFG))
       ++ [EvClose]).
Hypothesis I_freq : forall v h c, I h ->
  I (h ++ EvClient (serial CFG)
       :: transaction_calls c (EvWrite (freq_set (regs CFG)) v (unit_id CFG))
       ++ [EvClose]).
Hypothesis I_flash : forall msg h, I h -> I (h ++ [EvFlash msg]).

Lemma keeps_read_regs (a : Z) :
  In a (read_addresses CFG) -> keeps I (read_regs CFG env a 1).
Proof. intros Ha h Hh. rewrite read_regs_run. cbn [snd]. apply I_read; assumption. Qed.

Lemma keeps_flash (msg : string) : keeps I (flash msg).
Proof. intros h Hh. apply I_flash, Hh. Qed.

Ltac keeps_steps :=
  repeat first
    [ simple apply keeps_flash
    | simple apply keeps_ret
    | simple apply keeps_lift
    | match goal with |- keeps _ (match ?x with _ => _ end) => destruct x end
    | simple apply keeps_bind; [| intros ? ] ].

Ltac keeps_read :=
  apply keeps_bind;
  [ apply keeps_read_regs; unfold read_addresses; cbn [In]; tauto
  | intros ?; keeps_steps ].

Lemma keeps_read_freq_cmd : keeps I (read_freq_cmd CFG env).
Proof. unfold read_freq_cmd. keeps_read. Qed.

Lemma keeps_read_freq_hz : keeps I (read_freq_hz CFG env).
Proof. unfold read_freq_hz. keeps_read. Qed.

Lemma keeps_read_current_a : keeps I (read_current_a CFG env).
Proof. unfold read_current_a. keeps_read. Qed.

Lemma keeps_read_status_text : keeps I (read_status_text CFG env).
Proof. unfold read_status_text. keeps_read. Qed.

Lemma keeps_read_fault : keeps I (read_fault CFG env).
Proof. unfold read_fault. keeps_read. Qed.

Ltac keeps_views :=
  repeat first
    [ simple apply keeps_read_freq_cmd | simple apply keeps_read_freq_hz
    | simple apply keeps_read_current_a | simple apply keeps_read_status_text
    | simple apply keeps_read_fault | simple apply keeps_ret
    | simple apply keeps_lift
    | simple apply keeps_bind; [| intros ? ] ].

Lemma keeps_api_status : keeps I (api_status CFG env).
Proof. unfold api_status. keeps_views. Qed.

Lemma keeps_index : keeps I (index CFG env).
Proof. unfold index. keeps_views. Qed.

Lemma keeps_command (c : command) : keeps I (command_view c CFG env).
Proof.
  assert (W : keeps I (write_reg CFG env (cmd (regs CFG)) (command_code c))).
  { intros h Hh. rewrite write_reg_run. cbn [snd]. apply I_cmd; [| exact Hh].
    destruct c; cbn; tauto. }
  destruct c; cbn [command_view command_code] in *;
    unfold start, stop, reset; (apply keeps_bind; [exact W | intros ?; keeps_steps]).
Qed.

Lemma keeps_set_frequency (hz : spec_float) : keeps I (set_frequency CFG env hz).
Proof.
  unfold set_frequency.
  apply keeps_bind; [apply keeps_lift | intros value].
  apply keeps_bind.
  - intros h Hh. rewrite write_reg_run. cbn [snd]. apply I_freq, Hh.
  - intros ok. apply keeps_bind; [destruct ok; keeps_steps | intros msg].
    keeps_steps.
Qed.

Lemma keeps_setfreq (f : form) : keeps I (setfreq float_of_str CFG env f).
Proof.
  unfold setfreq. apply keeps_bind.
  - apply keeps_try_except_Exception; keeps_steps.
  - intros [hz |]; [apply keeps_set_frequency | apply keeps_ret].
Qed.

Lemma keeps_handle (r : request) : keeps I (handle float_of_str CFG env r).
Proof.
  unfold handle. apply keeps_try_except_Exception; [| apply keeps_ret].
  destruct r; cbn [dispatch].
  - apply keeps_api_status.
  - apply keeps_index.
  - apply (keeps_command Start).
  - apply (keeps_command Stop).
  - apply (keeps_command Reset).
  - apply keeps_setfreq.
Qed.

Lemma keeps_serve (rs : list request) : keeps I (serve float_of_str CFG env rs).
Proof.
  induction rs as [| r rest IH]; cbn [serve].
  - apply keeps_ret.
  - apply keeps_bind; [apply keeps_handle | intros resp].
    apply keeps_bind; [exact IH | intros resps]. apply keeps_ret.
Qed.

End KeepsApp.

Lemma link_run_app (h l : list event) :
  link_run (h ++ l) = fold_left link_step l (link_run h).
Proof. apply fold_left_app. Qed.

Lemma link_run_transaction (p : SerialParams) (c : result bool) (rq : event) (h : list event) :
  (exists a n u, rq = EvRead a n u) \/ (exists a v u, rq = EvWrite a v u) ->
  link_run h = Some Idle ->
  link_run (h ++ EvClient p :: transaction_calls c rq ++ [EvClose]) = Some Idle.
Proof.
  intros Hrq Hh. rewrite link_run_app, Hh.
  destruct Hrq as [(a & n & u & ->) | (a & v & u & ->)];
    destruct c as [[|] | e]; reflexivity.
Qed.

(** ** Further properties of the transport and of the views *)

(** The link is used by one client at a time: in the log of any sequence of
    requests, whatever the link answers or raises, every client is built,
    connected, asked at most one request and closed before the next one is
    built, and nothing is flashed in the middle of a transaction. After the
    last request no client is left open. *)
Theorem serve_one_client_at_a_time
  (float_of_str : string -> option spec_float) (cfg : Config) (env : Env)
  (rs : list request) :
  link_run (snd (serve float_of_str cfg env rs [])) = Some Idle.
Proof.
  apply (keeps_serve float_of_str cfg env (fun h => link_run h = Some Idle)).
  - intros a _ h c Hh. apply link_run_transaction; [left; eauto | exact Hh].
  - intros v _ h c Hh. apply link_run_transaction; [right; eauto | exact Hh].
  - intros v h c Hh. apply link_run_transaction; [right; eauto | exact Hh].
  - intros msg h Hh. rewrite link_run_app, Hh. reflexivity.
  - reflexivity.
Qed.

(** Every client is built from the configured serial parameters, every
    read asks for one register, at one of the five configured addresses,
    of the configured unit, and every write goes to the configured unit,
    at the set-point register or, with one of the codes 1, 6 and 7, at
    the command register. *)
Theorem serve_addresses_as_configured
  (float_of_str : string -> option spec_float) (cfg : Config) (env : Env)
  (rs : list request) :
  Forall (as_configured cfg) (snd (serve float_of_str cfg env rs [])).
Proof.
  assert (T : forall c rq h, as_configured cfg rq -> Forall (as_configured cfg) h ->
            Forall (as_configured cfg)
              (h ++ EvClient (serial cfg) :: transaction_calls c rq ++ [EvClose])).
  { intros c rq h Hrq Hh. apply Forall_app. split; [exact Hh |].
    constructor; [reflexivity |].
    apply Forall_app. split; [| repeat constructor].
    destruct c as [[|] | e]; cbn [transaction_calls]; repeat constructor; exact Hrq. }
  apply (keeps_serve float_of_str cfg env (Forall (as_configured cfg))).
  - intros a Ha h c Hh. apply T; [| exact Hh]. cbn. auto.
  - intros v Hv h c Hh. apply T; [| exact Hh]. cbn. auto.
  - intros v h c Hh. apply T; [| exact Hh]. cbn. auto.
  - intros msg h Hh. apply Forall_app. split; [exact Hh | repeat constructor].
  - constructor.
Qed.

(** No sequence of GET requests changes anything on the drive: the two GET
    routes, [/api/status] and [/], only build clients, connect, read and
    close; they never write a register and never flash a message,
    whatever the link answers. *)
Theorem get_requests_never_write
  (float_of_str : string -> option spec_float) (cfg : Config) (env : Env)
  (rs : list request) (h : list event) :
  forallb is_get rs = true ->
  exists ext, snd (serve float_of_str cfg env rs h) = h ++ ext /\
              forallb is_query ext = true.
Proof.
  intros Hrs.
  assert (A : appends (fun ev => is_query ev = true) (serve float_of_str cfg env rs)).
  { induction rs as [| r rest IH]; cbn [serve].
    - apply appends_ret.
    - cbn [forallb] in Hrs. apply andb_true_iff in Hrs as [Hr Hrest].
      apply appends_bind; [| intros resp].
      + unfold handle. apply appends_try_except_Exception; [| apply appends_ret].
        destruct r; try discriminate; cbn [dispatch];
          [apply appends_api_status | apply appends_index]; intros; reflexivity.
      + apply appends_bind; [exact (IH Hrest) | intros resps]. apply appends_ret. }
  destruct (A h) as (ext & E & F). exists ext. split; [exact E |].
  apply forallb_forall. apply Forall_forall. exact F.
Qed.

Lemma get_requests_never_write_witness :
  exists ext,
    snd (serve float_of_digits example_cfg (env_ok [1]) [GetIndex; GetApiStatus] [])
      = [] ++ ext /\
    forallb is_query ext = true.
Proof.
  apply (get_requests_never_write float_of_digits example_cfg (env_ok [1])
           [GetIndex; GetApiStatus] []).
  reflexivity.
Defined.

(** [write_reg] returns [True] exactly when the link opened and the drive
    answered the write with a response that is not an error; [read_regs]
    returns registers exactly when the link opened and the read was
    answered with a response that is not an error, and then they are the
    registers of that response. In every other case (the link did not
    open, no response, an error response, an exception) the result is
    [False] resp. [None], or the exception if it is not an [Exception]. *)
Theorem transport_success_is_acknowledged
  (cfg : Config) (env : Env) (addr count value : Z) (rs : list Z) (h : list event) :
  (fst (write_reg cfg env addr value h) = Ok true <->
     on_connect env (at_connect cfg h) = Ok true /\
     exists r, on_write env (at_request cfg h (EvWrite addr value (unit_id cfg)))
               = Ok (Some r) /\ isError r = false) /\
  (fst (read_regs cfg env addr count h) = Ok (Some rs) <->
     on_connect env (at_connect cfg h) = Ok true /\
     exists r, on_read env (at_request cfg h (EvRead addr count (unit_id cfg)))
               = Ok (Some r) /\ isError r = false /\ registers r = rs).
Proof.
  rewrite write_reg_run, read_regs_run. cbn [fst]. split; split.
  - destruct (on_connect env _) as [[|] | e]; cbn [write_outcome];
      [| discriminate | destruct (is_Exception e); discriminate].
    destruct (on_write env _) as [[r |] | e];
      [| discriminate | destruct (is_Exception e); discriminate].
    intros H. split; [reflexivity |]. exists r. split; [reflexivity |].
    destruct (isError r); [discriminate | reflexivity].
  - intros (-> & r & -> & Hr). cbn [write_outcome]. rewrite Hr. reflexivity.
  - destruct (on_connect env _) as [[|] | e]; cbn [read_outcome];
      [| discriminate | destruct (is_Exception e); discriminate].
    destruct (on_read env _) as [[r |] | e];
      [| discriminate | destruct (is_Exception e); discriminate].
    destruct (isError r) eqn:Hr; [discriminate |].
    intros H. split; [reflexivity |]. exists r. repeat split; [exact Hr | congruence].
  - intros (-> & r & -> & Hr & <-). cbn [read_outcome]. rewrite Hr. reflexivity.
Qed.

(** A response without registers is not checked for: when the link opens
    and a read is answered with an empty register list, [regs[0]] raises
    [IndexError] out of each of the five read functions, after the client
    has been closed; [api_status] and [index] stop at their first read
    with that exception, and the other registers are not read. *)
Theorem empty_register_list_raises
  (cfg : Config) (env : Env) (h : list event) :
  on_connect env (at_connect cfg h) = Ok true ->
  (forall addr,
     on_read env (at_request cfg h (EvRead addr 1 (unit_id cfg)))
     = Ok (Some {| isError := false; registers := [] |})) ->
  let log a := h ++ [EvClient (serial cfg); EvConnect;
                     EvRead a 1 (unit_id cfg); EvClose] in
  read_status_text cfg env h = (Raise IndexError, log (status (regs cfg))) /\
  read_fault cfg env h = (Raise IndexError, log (fault (regs cfg))) /\
  read_freq_cmd cfg env h = (Raise IndexError, log (freq_set (regs cfg))) /\
  read_freq_hz cfg env h = (Raise IndexError, log (freq_fb (regs cfg))) /\
  read_current_a cfg env h = (Raise IndexError, log (current_fb (regs cfg))) /\
  api_status cfg env h = (Raise IndexError, log (status (regs cfg))) /\
  index cfg env h = (Raise IndexError, log (freq_set (regs cfg))).
Proof.
  intros Hc Hr log.
  assert (R : forall a, read_regs cfg env a 1 h = (Ok (Some []), log a)).
  { intros a. rewrite read_regs_run, Hc, Hr. reflexivity. }
  unfold api_status, index, read_status_text, read_fault, read_freq_cmd,
    read_freq_hz, read_current_a, bind.
  rewrite !R. cbn [lift index0]. repeat split.
Qed.

Lemma empty_register_list_raises_witness :
  read_status_text example_cfg (env_ok []) []
    = (Raise IndexError,
       [EvClient example_serial; EvConnect; EvRead 12288 1 1; EvClose]) /\
  api_status example_cfg (env_ok []) []
    = (Raise IndexError,
       [EvClient example_serial; EvConnect; EvRead 12288 1 1; EvClose]).
Proof.
  pose proof (empty_register_list_raises example_cfg (env_ok []) []
                eq_refl (fun _ => eq_refl)) as (A & _ & _ & _ & _ & B & _).
  exact (conj A B).
Defined.



(** Over a link that cannot be opened both pages are still produced:
    [api_status] answers with the text [No comm] and every value absent,
    and [index] renders with every reading absent, the slider at the
    configured maximum, and the rated current of the configuration, 10.0
    when it has none. Each of them makes its five transactions. *)
Theorem views_on_dead_link
  (cfg : Config) (env : Env) (h : list event) (rated : spec_float) :
  cannot_open env ->
  py_float (match rated_current_a cfg with
            | Some x => x
            | None => PyFloat (f64 10)
            end) = Ok rated ->
  let t := [EvClient (serial cfg); EvConnect; EvClose] in
  api_status cfg env h
  = (Ok (Json {| sd_status := "No comm"; sd_fault := None;
                 sd_freq_cmd := None; sd_freq_act := None; sd_amps := None |}),
     h ++ t ++ t ++ t ++ t ++ t) /\
  index cfg env h
  = (Ok (Page {| ip_freq_cmd := None; ip_freq_act := None; ip_amps := None;
                 ip_ratedA := rated; ip_status := "No comm"; ip_fault := None;
                 ip_minHz := limits_hz_min cfg; ip_maxHz := limits_hz_max cfg;
                 ip_sliderHz := limits_hz_max cfg |}),
     h ++ t ++ t ++ t ++ t ++ t).
Proof.
  intros Hdown Hr t.
  unfold api_status, index, read_status_text, read_fault, read_freq_cmd,
    read_freq_hz, read_current_a, bind.
  unfold lift, ret.
  repeat first [ rewrite read_regs_cannot_open by exact Hdown
               | rewrite Hr
               | progress cbv beta iota ].
  unfold t. rewrite <- !app_assoc. split; reflexivity.
Qed.

Lemma views_on_dead_link_witness :
  fst (index example_cfg env_down [])
  = Ok (Page {| ip_freq_cmd := None; ip_freq_act := None; ip_amps := None;
                ip_ratedA := f64 10; ip_status := "No comm"; ip_fault := None;
                ip_minHz := PyInt 25; ip_maxHz := PyInt 50;
                ip_sliderHz := PyInt 50 |}).
Proof.
  pose proof (views_on_dead_link example_cfg env_down [] (f64 10)
                (fun h => or_introl eq_refl) eq_refl) as (_ & B).
  cbv zeta in B. rewrite B. reflexivity.
Defined.



(** ** Further properties of the clamp and of the encoding *)

Lemma exact_num_float (x : pynum) :
  exact_num x = true ->
  num_finite x = true /\
  exists f, py_float x = Ok f /\ B64.is_finite f = true /\
            (B64.F2Q f == num_Q x)%Q.
Proof.
  destruct x as [z | f]; cbn [exact_num num_finite py_float num_Q]; intros H.
  - apply Z.ltb_lt in H. split; [reflexivity |].
    exists (B64.of_Z z). destruct (of_Z_exact z H) as [F V].
    split; [apply float_of_int_exact, H | split; assumption].
  - split; [exact H |]. exists f. split; [reflexivity | split; [exact H | reflexivity]].
Qed.


Lemma clamp_hz_bounds (cfg : Config) (hz : spec_float) :
  py_le (limits_hz_min cfg) (limits_hz_max cfg) = true ->
  py_le (limits_hz_min cfg) (clamp_hz cfg hz) = true /\
  py_le (clamp_hz cfg hz) (limits_hz_max cfg) = true.
Proof.
  intros H. unfold clamp_hz, py_max, py_min, py_gt.
  set (lo := limits_hz_min cfg) in *. set (hi := limits_hz_max cfg) in *.
  destruct (py_lt (PyFloat hz) hi) eqn:E1.
  - destruct (py_lt lo (PyFloat hz)) eqn:E2.
    + split; order_cases.
    + split; [order_cases | exact H].
  - destruct (py_lt lo hi) eqn:E2.
    + split; order_cases.
    + split; [order_cases | exact H].
Qed.

(** A rounded non-negative value that is at most a finite float is finite,
    and between zero and that float. *)
Lemma round_below_finite (s : bool) (q : Q) (y : spec_float) :
  (0 <= q)%Q -> B64.is_finite y = true ->
  py_le (PyFloat (B64.round s q)) (PyFloat y) = true ->
  B64.is_finite (B64.round s q) = true /\
  (0 <= B64.F2Q (B64.round s q) <= B64.F2Q y)%Q.
Proof.
  intros Hq Fy Hle.
  assert (F : B64.is_finite (B64.round s q) = true).
  { destruct (round_nonneg s q Hq) as [[s' E] | [E | (m & e & E)]];
      rewrite E in *; try reflexivity.
    unfold py_le in Hle. cbn [xval] in Hle.
    rewrite (xval_float_finite y Fy) in Hle. discriminate. }
  split; [exact F |]. split.
  - pose proof (zero_le_round s q Hq) as Z. unfold py_le in Z. cbn [xval] in Z.
    rewrite (xval_float_finite _ F) in Z. apply Qle_bool_iff in Z. exact Z.
  - apply py_le_finite; assumption.
Qed.

(** The encoding keeps the order of non-negative frequencies: below a
    frequency that can be encoded, every frequency can, to a value that is
    not larger. *)
Lemma pct10k_from_hz_mono (cfg : Config) (base : spec_float) (a b : pynum) (nb : Z) :
  py_float (base_freq_hz cfg) = Ok base ->
  (0 < B64.F2Q base)%Q ->
  exact_num a = true -> exact_num b = true ->
  (0 <= num_Q a)%Q -> (num_Q a <= num_Q b)%Q ->
  pct10k_from_hz cfg b = Ok nb ->
  exists na, pct10k_from_hz cfg a = Ok na /\ 0 <= na <= nb.
Proof.
  intros Hb HB Ea Eb A0 AB Hnb.
  destruct (positive_value_finite base HB) as [Fb Zb].
  destruct (exact_num_float a Ea) as (_ & x & Hx & Fx & Vx).
  destruct (exact_num_float b Eb) as (_ & y & Hy & Fy & Vy).
  unfold pct10k_from_hz, py_truediv in *.
  rewrite Hb in *. rewrite Hx. rewrite Hy in Hnb. cbn [rbind] in *.
  rewrite Zb in *. cbn [rbind] in *.
  set (c := f64 10000) in *.
  assert (Fc : B64.is_finite c = true) by reflexivity.
  assert (Zc : B64.is_zero c = false) by reflexivity.
  assert (Vc : (B64.F2Q c == 10000)%Q) by reflexivity.
  destruct (py_round_ok _ _ Hnb) as [Fpb ->].
  pose proof (mul_finite_l _ _ Fpb Fc Zc) as Fqb.
  rewrite (div_finite x base Fx Fb Zb).
  rewrite (div_finite y base Fy Fb Zb) in *.
  set (sa := xorb (B64.sign x) (B64.sign base)).
  set (sb := xorb (B64.sign y) (B64.sign base)) in *.
  assert (Ua : (0 <= B64.F2Q x / B64.F2Q base)%Q).
  { apply Qle_shift_div_l; [exact HB |]. rewrite Vx. lra. }
  assert (Uab : (B64.F2Q x / B64.F2Q base <= B64.F2Q y / B64.F2Q base)%Q).
  { apply Qle_shift_div_l; [exact HB |].
    assert (X : (B64.F2Q x / B64.F2Q base * B64.F2Q base == B64.F2Q x)%Q)
      by (field; lra).
    rewrite X, Vx, Vy. exact AB. }
  destruct (round_below_finite sa _ _ Ua Fqb (round_le sa sb _ _ Ua Uab))
    as (Fqa & Qa0 & Qab).
  set (qa := B64.round sa (B64.F2Q x / B64.F2Q base)) in *.
  set (qb := B64.round sb (B64.F2Q y / B64.F2Q base)) in *.
  rewrite (mul_finite qa c Fqa Fc).
  rewrite (mul_finite qb c Fqb Fc) in *.
  set (ta := xorb (B64.sign qa) (B64.sign c)).
  set (tb := xorb (B64.sign qb) (B64.sign c)) in *.
  assert (Pa : (0 <= B64.F2Q qa * B64.F2Q c)%Q) by (rewrite Vc; lra).
  assert (Pab : (B64.F2Q qa * B64.F2Q c <= B64.F2Q qb * B64.F2Q c)%Q)
    by (rewrite Vc; lra).
  destruct (round_below_finite ta _ _ Pa Fpb (round_le ta tb _ _ Pa Pab))
    as (Fpa & Pa0 & Pab').
  set (pa := B64.round ta (B64.F2Q qa * B64.F2Q c)) in *.
  exists (B64.round_half_even (B64.F2Q pa)). split.
  - destruct pa; try discriminate; reflexivity.
  - split.
    + rewrite <- (round_half_even_Z 0). apply round_half_even_mono. exact Pa0.
    + apply round_half_even_mono. exact Pab'.
Qed.

(** With limits in order, the value [clamp_hz] returns lies between them
    for every float it is given, the infinities and NaN included: a NaN
    and [+inf] are clamped to the maximum, [-inf] to the minimum. *)
Theorem clamp_hz_always_in_band (cfg : Config) (hz : spec_float) :
  py_le (limits_hz_min cfg) (limits_hz_max cfg) = true ->
  py_le (limits_hz_min cfg) (clamp_hz cfg hz) = true /\
  py_le (clamp_hz cfg hz) (limits_hz_max cfg) = true /\
  py_eq (clamp_hz cfg S754_nan) (limits_hz_max cfg) = true /\
  py_eq (clamp_hz cfg (S754_infinity false)) (limits_hz_max cfg) = true /\
  clamp_hz cfg (S754_infinity true) = limits_hz_min cfg.
Proof.
  intros H.
  destruct (clamp_hz_bounds cfg hz H) as [L U].
  split; [exact L | split; [exact U |]].
  unfold clamp_hz, py_max, py_min, py_gt.
  set (lo := limits_hz_min cfg) in *. set (hi := limits_hz_max cfg) in *.
  assert (N : py_lt (PyFloat S754_nan) hi = false) by (unfold py_lt; reflexivity).
  assert (I : py_lt (PyFloat (S754_infinity false)) hi = false)
    by (unfold py_lt; cbn [xval xval_float]; destruct (xval hi); reflexivity).
  rewrite N, I.
  assert (T : py_eq (if py_lt lo hi then hi else lo) hi = true).
  { destruct (py_lt lo hi) eqn:E.
    - apply (py_le_refl_eq lo hi H).
    - apply py_le_not_lt_eq; assumption. }
  split; [exact T | split; [exact T |]].
  destruct (py_lt (PyFloat (S754_infinity true)) hi) eqn:E.
  - assert (X : py_lt lo (PyFloat (S754_infinity true)) = false).
    { unfold py_lt. cbn [xval xval_float]. destruct (xval lo); reflexivity. }
    rewrite X. reflexivity.
  - destruct (py_lt lo hi) eqn:E2; [| reflexivity].
    exfalso. clear - E E2 H. unfold py_lt in E. cbn [xval xval_float] in E.
    order_cases.
Qed.

Lemma clamp_hz_always_in_band_witness :
  py_le (PyInt 25) (clamp_hz example_cfg S754_nan) = true /\
  py_le (clamp_hz example_cfg S754_nan) (PyInt 50) = true /\
  py_eq (clamp_hz example_cfg S754_nan) (PyInt 50) = true /\
  py_eq (clamp_hz example_cfg (S754_infinity false)) (PyInt 50) = true /\
  clamp_hz example_cfg (S754_infinity true) = PyInt 25.
Proof.
  apply (clamp_hz_always_in_band example_cfg S754_nan). reflexivity.
Defined.



(** The encoding is in ten-thousandths of the base frequency, whatever the
    base frequency is: for a positive base that converts to a float
    exactly, the base frequency itself is encoded as 10000, zero as 0, and
    every frequency from zero to the base as a value from 0 to 10000. *)
Theorem pct10k_from_hz_percent
  (cfg : Config) (hz : pynum) :
  exact_num (base_freq_hz cfg) = true ->
  (0 < num_Q (base_freq_hz cfg))%Q ->
  exact_num hz = true ->
  (0 <= num_Q hz <= num_Q (base_freq_hz cfg))%Q ->
  pct10k_from_hz cfg (base_freq_hz cfg) = Ok 10000 /\
  pct10k_from_hz cfg (PyInt 0) = Ok 0 /\
  exists n, pct10k_from_hz cfg hz = Ok n /\ 0 <= n <= 10000.
Proof.
  intros Eb Pb Eh [H0 H1].
  destruct (exact_num_float _ Eb) as (_ & b & Hb & Fb & Vb).
  assert (HB : (0 < B64.F2Q b)%Q) by (rewrite Vb; exact Pb).
  destruct (positive_value_finite b HB) as [_ Zb].
  assert (Full : pct10k_from_hz cfg (base_freq_hz cfg) = Ok 10000).
  { unfold pct10k_from_hz, py_truediv. rewrite Hb. cbn [rbind]. rewrite Zb.
    cbn [rbind]. rewrite (div_finite b b Fb Fb Zb).
    assert (E : B64.round (xorb (B64.sign b) (B64.sign b)) (B64.F2Q b / B64.F2Q b)
                = B64.round false 1).
    { rewrite (round_sign_irrelevant _ false).
      - apply round_comp. field. lra.
      - intros C. assert (X : (B64.F2Q b / B64.F2Q b == 1)%Q) by (field; lra).
        rewrite X in C. discriminate C. }
    rewrite E. reflexivity. }
  assert (Zero : pct10k_from_hz cfg (PyInt 0) = Ok 0).
  { unfold pct10k_from_hz, py_truediv. rewrite Hb. cbn [rbind py_float].
    rewrite float_of_int_exact by reflexivity. cbn [rbind]. rewrite Zb.
    cbn [rbind]. rewrite (div_finite (B64.of_Z 0) b eq_refl Fb Zb).
    rewrite round_zero.
    - destruct (xorb _ _); reflexivity.
    - change (B64.F2Q (B64.of_Z 0)) with 0%Q. field. lra. }
  split; [exact Full | split; [exact Zero |]].
  apply (pct10k_from_hz_mono cfg b hz (base_freq_hz cfg) 10000 Hb HB Eh Eb H0 H1 Full).
Qed.

Lemma pct10k_from_hz_percent_witness :
  pct10k_from_hz example_cfg (PyInt 50) = Ok 10000 /\
  pct10k_from_hz example_cfg (PyInt 0) = Ok 0 /\
  exists n, pct10k_from_hz example_cfg (PyFloat (f64 33)) = Ok n /\ 0 <= n <= 10000.
Proof.
  apply (pct10k_from_hz_percent example_cfg (PyFloat (f64 33)));
    [reflexivity | reflexivity | reflexivity | split; discriminate].
Defined.

(** ** The pages over a link that fails *)

Lemma env_late_sound : sound_link env_late.
Proof.
  split; [| split].
  - intros h e H. discriminate H.
  - intros h e H. discriminate H.
  - intros h r H _. injection H as <-. exists 0, []. split; [reflexivity | lia].
Qed.

Lemma read_regs_sound (cfg : Config) (env : Env) (a : Z) (h : list event) :
  sound_link env ->
  read_regs cfg env a 1 h = (Ok None, after_read cfg env a h) \/
  exists raw rest, 0 <= raw <= 65535 /\
    read_regs cfg env a 1 h = (Ok (Some (raw :: rest)), after_read cfg env a h).
Proof.
  intros (Hc & Hr & Hv). rewrite read_regs_run. unfold after_read.
  destruct (on_connect env (at_connect cfg h)) as [[|] | e] eqn:Ec;
    cbn [read_outcome].
  - destruct (on_read env _) as [[r |] | e] eqn:Er.
    + destruct (isError r) eqn:Ee; [left; reflexivity |].
      destruct (Hv _ _ Er Ee) as (raw & rest & -> & Hraw).
      right. exists raw, rest. split; [exact Hraw | reflexivity].
    + left. reflexivity.
    + rewrite (Hr _ _ Er). left. reflexivity.
  - left. reflexivity.
  - rewrite (Hc _ _ Ec). left. reflexivity.
Qed.

Lemma register_float (raw : Z) (d : Z) :
  0 <= raw <= 65535 -> B64.is_zero (f64 d) = false ->
  py_truediv (PyInt raw) (f64 d) = Ok (B64.div (B64.of_Z raw) (f64 d)).
Proof.
  intros Hraw Hd. unfold py_truediv. cbn [py_float].
  rewrite float_of_int_exact by lia. cbn [rbind]. rewrite Hd. reflexivity.
Qed.

Section SoundLink.

Variable cfg : Config.
Variable env : Env.
Variable base : spec_float.

Hypothesis Hsound : sound_link env.
Hypothesis Hbase : py_float (base_freq_hz cfg) = Ok base.

Lemma read_status_text_sound (h : list event) :
  exists v, read_status_text cfg env h
            = (Ok v, after_read cfg env (status (regs cfg)) h).
Proof.
  unfold read_status_text, bind.
  destruct (read_regs_sound cfg env (status (regs cfg)) h Hsound)
    as [-> | (raw & rest & Hraw & ->)]; eexists; reflexivity.
Qed.

Lemma read_fault_sound (h : list event) :
  exists v, read_fault cfg env h
            = (Ok v, after_read cfg env (fault (regs cfg)) h).
Proof.
  unfold read_fault, bind.
  destruct (read_regs_sound cfg env (fault (regs cfg)) h Hsound)
    as [-> | (raw & rest & Hraw & ->)]; eexists; reflexivity.
Qed.

Lemma read_freq_cmd_sound (h : list event) :
  exists v, read_freq_cmd cfg env h
            = (Ok v, after_read cfg env (freq_set (regs cfg)) h).
Proof.
  unfold read_freq_cmd, bind.
  destruct (read_regs_sound cfg env (freq_set (regs cfg)) h Hsound)
    as [-> | (raw & rest & Hraw & ->)]; [eexists; reflexivity |].
  cbn [lift index0]. unfold decode_freq_cmd.
  rewrite (register_float raw 10000 Hraw eq_refl). cbn [rbind].
  rewrite Hbase. eexists. reflexivity.
Qed.

Lemma read_freq_hz_sound (h : list event) :
  exists v, read_freq_hz cfg env h
            = (Ok v, after_read cfg env (freq_fb (regs cfg)) h).
Proof.
  unfold read_freq_hz, bind.
  destruct (read_regs_sound cfg env (freq_fb (regs cfg)) h Hsound)
    as [-> | (raw & rest & Hraw & ->)]; [eexists; reflexivity |].
  cbn [lift index0].
  rewrite (register_float raw 100 Hraw eq_refl). eexists. reflexivity.
Qed.

Lemma read_current_a_sound (h : list event) :
  exists v, read_current_a cfg env h
            = (Ok v, after_read cfg env (current_fb (regs cfg)) h).
Proof.
  unfold read_current_a, bind.
  destruct (read_regs_sound cfg env (current_fb (regs cfg)) h Hsound)
    as [-> | (raw & rest & Hraw & ->)]; [eexists; reflexivity |].
  cbn [lift index0]. unfold decode_current.
  destruct (raw >? 200).
  - rewrite (register_float raw 100 Hraw eq_refl). eexists. reflexivity.
  - rewrite float_of_int_exact by lia. eexists. reflexivity.
Qed.

End SoundLink.

(** Both pages are always served over a link that fails as a link does:
    whenever [connect] and the reads raise nothing but [Exception]s and
    the registers that are read hold 16-bit values, [api_status] returns
    its data and [index] its page, for every pattern of failures; a
    failure shows as an absent value, never as an error of the page. Each
    of them makes five read transactions, each with a client of its own:
    [api_status] on the status, fault, set-point, frequency and current
    registers in this order, [index] on the set-point, frequency, current,
    status and fault registers. *)
Theorem pages_always_served
  (cfg : Config) (env : Env) (h : list event) (base rated : spec_float) :
  sound_link env ->
  py_float (base_freq_hz cfg) = Ok base ->
  py_float (match rated_current_a cfg with
            | Some x => x
            | None => PyFloat (f64 10)
            end) = Ok rated ->
  let t := after_read cfg env in
  let r := regs cfg in
  (exists d, api_status cfg env h
     = (Ok (Json d),
        t (current_fb r) (t (freq_fb r) (t (freq_set r) (t (fault r) (t (status r) h)))))) /\
  (exists ctx, index cfg env h
     = (Ok (Page ctx),
        t (fault r) (t (status r) (t (current_fb r) (t (freq_fb r) (t (freq_set r) h)))))).
Proof.
  intros Hs Hb Hr t r. subst t r.
  unfold api_status, index, bind, lift.
  split;
    repeat (match goal with
            | |- context [read_status_text cfg env ?k] =>
                destruct (read_status_text_sound cfg env Hs k) as (? & ->)
            | |- context [read_fault cfg env ?k] =>
                destruct (read_fault_sound cfg env Hs k) as (? & ->)
            | |- context [read_freq_cmd cfg env ?k] =>
                destruct (read_freq_cmd_sound cfg env base Hs Hb k) as (? & ->)
            | |- context [read_freq_hz cfg env ?k] =>
                destruct (read_freq_hz_sound cfg env Hs k) as (? & ->)
            | |- context [read_current_a cfg env ?k] =>
                destruct (read_current_a_sound cfg env Hs k) as (? & ->)
            | |- context [py_float _] => rewrite Hr
            end; cbv beta iota);
    eexists; reflexivity.
Qed.

Lemma pages_always_served_witness :
  let t := after_read example_cfg env_late in
  (exists d, api_status example_cfg env_late []
     = (Ok (Json d), t 4098 (t 4097 (t 4096 (t 32768 (t 12288 [])))))) /\
  (exists ctx, index example_cfg env_late []
     = (Ok (Page ctx), t 32768 (t 12288 (t 4098 (t 4097 (t 4096 [])))))).
Proof.
  apply (pages_always_served example_cfg env_late [] (f64 50) (f64 10)).
  - exact env_late_sound.
  - reflexivity.
  - reflexivity.
Defined.

(** A status snapshot over a link that is down for the first transaction
    only: the status is [No comm], the other four values are there. *)
Example api_status_on_a_late_link :
  fst (api_status example_cfg env_late [])
  = Ok (Json {| sd_status := "No comm"; sd_fault := Some 0;
                sd_freq_cmd := Some (f64 0); sd_freq_act := Some (f64 0);
                sd_amps := Some (f64 0) |}).
Proof. vm_compute. reflexivity. Qed.
